(** * poubilas/dotfiles: sliding-window chunker and search-query extractor

    Shallow embedding of
      - [chunk_text]               (notenvektorierung.py)
      - [extract_search_keywords]  (kiunimainzqwenvscode.py, class JGUKIChat)
    and the properties stated about them.

    Python values are modelled as follows.
      - [int] is [Z] (unbounded);
      - [str] is a list of Unicode code points, [pystr := list N];
        literals of the UTF-8 encoded source are read with [u];
      - a [list] is a [list]; a [set] is used for membership only and is a
        list searched with [mem]; an insertion-ordered [dict] is the list of
        its keys;
      - a [while] loop takes fuel, [None] meaning that the fuel ran out;
      - an operation that can raise returns a [result]. *)

From Stdlib Require Import ZArith NArith List Bool Lia String Ascii.
From Stdlib Require DecimalNat.
Import ListNotations.

(* ================================================================= *)
(** ** Python strings *)

Definition char := N.
Definition pystr := list char.

Module Utf8.

(** Decoder for the literals of the source file, which is UTF-8 encoded.
    [pending] counts the continuation bytes still expected and [acc] holds
    the bits read so far. *)
Fixpoint decode (pending : nat) (acc : N) (s : string) : pystr :=
  match s with
  | EmptyString => []
  | String a rest =>
      let b := N_of_ascii a in
      match pending with
      | O =>
          if (b <? 128)%N then b :: decode 0 0%N rest
          else if (b <? 224)%N then decode 1 (N.land b 31) rest
          else if (b <? 240)%N then decode 2 (N.land b 15) rest
          else decode 3 (N.land b 7) rest
      | S O => (acc * 64 + N.land b 63)%N :: decode 0 0%N rest
      | S p => decode p (acc * 64 + N.land b 63)%N rest
      end
  end.

End Utf8.

Definition u (s : string) : pystr := Utf8.decode 0 0%N s.

Fixpoint str_eqb (a b : pystr) : bool :=
  match a, b with
  | [], [] => true
  | x :: a', y :: b' => (x =? y)%N && str_eqb a' b'
  | _, _ => false
  end.

(** [x in s] for a set or list of strings. *)
Definition mem (x : pystr) (s : list pystr) : bool := existsb (str_eqb x) s.

(** Truth value of a string or a list: non-empty. *)
Definition truthy {A : Type} (l : list A) : bool :=
  match l with [] => false | _ :: _ => true end.

(** [sep.join(parts)] *)
Fixpoint join (sep : pystr) (parts : list pystr) : pystr :=
  match parts with
  | [] => []
  | [p] => p
  | p :: rest => p ++ sep ++ join sep rest
  end.

Fixpoint starts_with (w s : pystr) : bool :=
  match w, s with
  | [], _ => true
  | _ :: _, [] => false
  | x :: w', y :: s' => (x =? y)%N && starts_with w' s'
  end.

(** [w in s] for strings: [w] occurs in [s] as a contiguous substring. *)
Fixpoint contains (w s : pystr) : bool :=
  starts_with w s ||
  match s with
  | [] => false
  | _ :: s' => contains w s'
  end.

(** [w] is a substring of [s]. *)
Definition occurs_in (w s : pystr) : Prop :=
  exists pre post, s = pre ++ w ++ post.

(** Some word of [triggers] is a substring of [s]. *)
Definition trigger_in (triggers : list pystr) (s : pystr) : Prop :=
  exists w, In w triggers /\ occurs_in w s.

(** [s.replace(old, new)] for a non-empty [old]: the leftmost occurrences
    that do not overlap are replaced.  [skip] counts the characters of a
    match that are still to be dropped. *)
Fixpoint replace_from (old new : pystr) (skip : nat) (s : pystr) : pystr :=
  match s with
  | [] => []
  | c :: s' =>
      match skip with
      | S k => replace_from old new k s'
      | O =>
          if starts_with old s
          then new ++ replace_from old new (pred (List.length old)) s'
          else c :: replace_from old new 0 s'
      end
  end.

Definition replace (old new s : pystr) : pystr := replace_from old new 0 s.

(** [str.isspace] on one character: the white space of CPython's
    [_PyUnicode_IsWhitespace]. *)
Definition isspace (c : char) : bool :=
  ((9 <=? c) && (c <=? 13) || (28 <=? c) && (c <=? 32) ||
   (c =? 133) || (c =? 160) || (c =? 5760) ||
   (8192 <=? c) && (c <=? 8202) || (c =? 8232) || (c =? 8233) ||
   (c =? 8239) || (c =? 8287) || (c =? 12288))%N.

Fixpoint lstrip (s : pystr) : pystr :=
  match s with
  | [] => []
  | c :: s' => if isspace c then lstrip s' else s
  end.

Definition rstrip (s : pystr) : pystr := rev (lstrip (rev s)).

(** [s.strip()] *)
Definition strip (s : pystr) : pystr := rstrip (lstrip s).

(** [s.split()]: the maximal runs of characters that are not white space.
    [cur] is the run being read, in reverse. *)
Fixpoint split_from (cur : pystr) (s : pystr) : list pystr :=
  match s with
  | [] => if truthy cur then [rev cur] else []
  | c :: s' =>
      if isspace c
      then (if truthy cur then rev cur :: split_from [] s' else split_from [] s')
      else split_from (c :: cur) s'
  end.

Definition split (s : pystr) : list pystr := split_from [] s.

(** [list(dict.fromkeys(l))]: a key that is already present keeps its
    place, a new key goes to the end. *)
Definition dict_insert (d : list pystr) (k : pystr) : list pystr :=
  if mem k d then d else d ++ [k].

Definition dict_fromkeys (l : list pystr) : list pystr :=
  fold_left dict_insert l [].

(** The specification's wording of the same step, "duplicates are removed,
    preserving first-occurrence order": an element is kept where it occurs
    first and struck from the rest. *)
Fixpoint first_occurrences (l : list pystr) : list pystr :=
  match l with
  | [] => []
  | x :: rest =>
      x :: filter (fun y => negb (str_eqb y x)) (first_occurrences rest)
  end.

(* ================================================================= *)
(** ** Exceptions *)

Inductive exn := IndexError.

Inductive result (A : Type) :=
| Return (a : A)
| Raise (e : exn).

Arguments Return {A} a.
Arguments Raise {A} e.

Definition bind {A B : Type} (m : result A) (k : A -> result B) : result B :=
  match m with
  | Return a => k a
  | Raise e => Raise e
  end.

Notation "x <- m ;; k" := (bind m (fun x => k))
  (at level 61, m at next level, right associativity).

(** [l[i]] for [i >= 0] *)
Definition index {A : Type} (l : list A) (i : nat) : result A :=
  match nth_error l i with
  | Some a => Return a
  | None => Raise IndexError
  end.

(** A [for] loop whose body can raise. *)
Fixpoint for_each {A St : Type} (body : St -> A -> result St) (l : list A)
  (s : St) : result St :=
  match l with
  | [] => Return s
  | a :: l' => s' <- body s a ;; for_each body l' s'
  end.

(* ================================================================= *)
(** ** notenvektorierung.py: [chunk_text] *)

Definition token := Z.

(** A token span [[start, stop)]. *)
Definition span := (Z * Z)%type.

(** Python's [l[start:stop]]: a negative index counts from the end, and both
    indices are clipped to the list. *)
Definition slice_index (len i : Z) : Z :=
  if (i <? 0)%Z then Z.max 0 (i + len) else Z.min i len.

Definition py_slice {A : Type} (l : list A) (start stop : Z) : list A :=
  let len := Z.of_nat (List.length l) in
  let lo := slice_index len start in
  let hi := slice_index len stop in
  firstn (Z.to_nat (hi - lo)) (skipn (Z.to_nat lo) l).

Section Chunker.

(** The tiktoken encoding [cl100k_base], an external collaborator. *)
Variable encode : pystr -> list token.
Variable decode : list token -> pystr.

Open Scope Z_scope.

(** The [while start < total_tokens] loop; [chunks] is the list being
    appended to. *)
Fixpoint chunk_loop (fuel : nat) (tokens : list token)
  (max_tokens overlap start : Z) (chunks : list pystr)
  : option (list pystr) :=
  match fuel with
  | O => None
  | S fuel' =>
      let total_tokens := Z.of_nat (List.length tokens) in
      if start <? total_tokens then
        let end_ := Z.min (start + max_tokens) total_tokens in
        let chunk_tokens := py_slice tokens start end_ in
        let chunks := (chunks ++ [decode chunk_tokens])%list in
        let step := max_tokens - overlap in
        if end_ =? total_tokens then Some chunks
        else chunk_loop fuel' tokens max_tokens overlap (start + step) chunks
      else Some chunks
  end.

Definition chunk_text (fuel : nat) (text : pystr) (max_tokens overlap : Z)
  : option (list pystr) :=
  let tokens := encode text in
  let total_tokens := Z.of_nat (List.length tokens) in
  if total_tokens <=? max_tokens then Some [decode tokens]
  else chunk_loop fuel tokens max_tokens overlap 0 [].

(** [chunk_text] returns [chunks] when some number of loop iterations
    ends in a [return]. *)
Definition chunk_text_returns (text : pystr) (max_tokens overlap : Z)
  (chunks : list pystr) : Prop :=
  exists fuel, chunk_text fuel text max_tokens overlap = Some chunks.

(** *** The spans behind the chunks

    The same loop, recording the offsets [(start, end_)] of each window
    instead of the decoded text. *)
Fixpoint span_loop (fuel : nat) (total_tokens max_tokens overlap start : Z)
  : option (list span) :=
  match fuel with
  | O => None
  | S fuel' =>
      if start <? total_tokens then
        let end_ := Z.min (start + max_tokens) total_tokens in
        if end_ =? total_tokens then Some [(start, end_)]
        else
          match span_loop fuel' total_tokens max_tokens overlap
                  (start + (max_tokens - overlap)) with
          | Some rest => Some ((start, end_) :: rest)
          | None => None
          end
      else Some []
  end.

Definition chunk_spans (fuel : nat) (text : pystr) (max_tokens overlap : Z)
  : option (list span) :=
  let total_tokens := Z.of_nat (List.length (encode text)) in
  if total_tokens <=? max_tokens then Some [(0, total_tokens)]
  else span_loop fuel total_tokens max_tokens overlap 0.

(** The tokens and the chunk of a span. *)
Definition span_tokens (tokens : list token) (sp : span) : list token :=
  py_slice tokens (fst sp) (snd sp).

Definition chunk_of (tokens : list token) (sp : span) : pystr :=
  decode (span_tokens tokens sp).

Definition span_len (sp : span) : Z := snd sp - fst sp.

(** Number of token offsets that two spans share. *)
Definition span_overlap (a b : span) : Z :=
  Z.max 0 (Z.min (snd a) (snd b) - Z.max (fst a) (fst b)).

(** [ceil (a / b)] for [b > 0]. *)
Definition ceil_div (a b : Z) : Z := - ((- a) / b).

(** The windows the loop lays out from [start] on, for [total] tokens:
    full windows of [max_tokens] tokens, [max_tokens - overlap] apart,
    and a last one that ends at [total]. *)
Inductive windows (total max_tokens overlap : Z) : Z -> list span -> Prop :=
| windows_last start :
    start < total -> total <= start + max_tokens ->
    windows total max_tokens overlap start [(start, total)]
| windows_more start rest :
    start + max_tokens < total ->
    windows total max_tokens overlap (start + (max_tokens - overlap)) rest ->
    windows total max_tokens overlap start
      ((start, start + max_tokens) :: rest).

(** Spans in order, each starting inside or right after the one before:
    [chain lo hi spans] runs from [lo] to [hi] without a gap. *)
Fixpoint chain (lo hi : Z) (spans : list span) : Prop :=
  match spans with
  | [] => False
  | [sp] => fst sp = lo /\ snd sp = hi /\ lo <= hi
  | sp :: ((nxt :: _) as rest) =>
      fst sp = lo /\ lo < snd sp <= hi /\
      fst sp <= fst nxt <= snd sp /\ snd sp <= snd nxt /\
      chain (fst nxt) hi rest
  end.

(** The tokens of the spans put together again from offset [pos] on: each
    span adds what lies past the end of the one before it. *)
Fixpoint reassemble (tokens : list token) (pos : Z) (spans : list span)
  : list token :=
  match spans with
  | [] => []
  | sp :: rest =>
      (py_slice tokens pos (snd sp) ++ reassemble tokens (snd sp) rest)%list
  end.

End Chunker.

(** A tokenizer to run the chunker on concrete texts: one token per code
    point. *)
Definition codepoint_encode (text : pystr) : list token := map Z.of_N text.
Definition codepoint_decode (tokens : list token) : pystr := map Z.to_N tokens.

Definition sample_text : pystr := u "abcdefghij".
Definition long_text : pystr := repeat 97%N 300.

(* ================================================================= *)
(** ** kiunimainzqwenvscode.py: [JGUKIChat.extract_search_keywords] *)

Definition stopwords : list pystr := map u
  [ "wie"; "was"; "wer"; "wo"; "wann"; "warum"; "welche"; "welcher"; "welches";
    "ist"; "sind"; "war"; "waren"; "wird"; "werden"; "kann"; "können";
    "der"; "die"; "das"; "den"; "dem"; "des"; "ein"; "eine"; "einer"; "einem";
    "und"; "oder"; "aber"; "denn"; "weil"; "dass"; "ob"; "wenn"; "als";
    "zu"; "zum"; "zur"; "von"; "vom"; "bei"; "mit"; "für"; "über"; "unter";
    "ich"; "du"; "er"; "sie"; "es"; "wir"; "ihr"; "mich"; "mir"; "dich"; "dir";
    "nicht"; "kein"; "keine"; "keiner"; "auch"; "noch"; "schon"; "sehr";
    "bitte"; "kannst"; "könntest"; "würdest"; "sag"; "sage"; "erzähl"; "erkläre";
    "gib"; "zeig"; "zeige"; "finde"; "such"; "suche"; "vergleiche"; "vergleich";
    "the"; "is"; "are"; "was"; "were"; "what"; "who"; "where"; "when"; "why"; "how";
    "can"; "could"; "would"; "please"; "tell"; "me"; "about"; "find"; "compare";
    "in"; "im"; "an"; "am"; "auf" ]%string.

Definition weather_triggers : list pystr :=
  map u ["wetter"; "temperatur"; "regen"; "weather"; "klima"]%string.
Definition news_triggers : list pystr :=
  map u ["news"; "nachrichten"; "aktuell"; "neuigkeiten"]%string.
Definition price_triggers : list pystr :=
  map u ["preis"; "kosten"; "price"; "cost"]%string.

Definition weather_words : list pystr :=
  map u ["wetter"; "temperatur"; "regen"; "weather"; "klima";
         "wie"; "ist"; "das"]%string.
Definition news_words : list pystr :=
  map u ["news"; "nachrichten"; "aktuell"; "neuigkeiten"]%string.
Definition price_words : list pystr :=
  map u ["preis"; "kosten"; "price"; "cost"]%string.

(** [any(w in question_lower for w in triggers)] *)
Definition any_in (triggers : list pystr) (question_lower : pystr) : bool :=
  existsb (fun w => contains w question_lower) triggers.

(** The [if]/[elif] chain that sets [topic_prefix] and [topic_words]. *)
Definition detect_topic (question_lower : pystr) : pystr * list pystr :=
  if any_in weather_triggers question_lower
  then (u "Wetter heute", weather_words)
  else if any_in news_triggers question_lower
  then (u "News aktuell", news_words)
  else if any_in price_triggers question_lower
  then (u "Preis aktuell", price_words)
  else ([], []).

Section QueryExtractor.

(** Python's Unicode case tables: [str.lower], and [str.isupper] on a string
    of one character. *)
Variable lower : pystr -> pystr.
Variable isupper : char -> bool.

(** The body of [for word in original_words]; the state is
    [(locations, current_location)]. *)
Definition location_step (topic_words : list pystr)
  (st : list pystr * list pystr) (word : pystr)
  : result (list pystr * list pystr) :=
  let '(locations, current_location) := st in
  if str_eqb word (u ",") then
    if truthy current_location
    then Return (locations ++ [join (u " ") current_location], [])
    else Return (locations, current_location)
  else
    c <- index word 0 ;;
    if isupper c && negb (mem (lower word) stopwords)
       && negb (mem (lower word) topic_words)
    then Return (locations, current_location ++ [word])
    else if truthy current_location
    then Return (locations ++ [join (u " ") current_location], [])
    else Return (locations, current_location).

(** The location phrases of the words, before duplicates are removed. *)
Definition find_locations (topic_words original_words : list pystr)
  : result (list pystr) :=
  st <- for_each (location_step topic_words) original_words ([], []) ;;
  let '(locations, current_location) := st in
  if truthy current_location
  then Return (locations ++ [join (u " ") current_location])
  else Return locations.

Definition clean (question : pystr) : pystr :=
  replace (u ".") (u "")
    (replace (u "!") (u "")
       (replace (u "?") (u "")
          (replace (u ",") (u " , ") question))).

(** [w.lower() not in stopwords and len(w) > 1 and w != ","] *)
Definition is_keyword (w : pystr) : bool :=
  negb (mem (lower w) stopwords) && (1 <? List.length w)%nat
  && negb (str_eqb w (u ",")).

Definition extract_search_keywords (question : pystr) : result (list pystr) :=
  let question_lower := lower question in
  let '(topic_prefix, topic_words) := detect_topic question_lower in
  let clean_question := clean question in
  let original_words := split clean_question in
  locations <- find_locations topic_words original_words ;;
  let locations :=
    dict_fromkeys (filter (fun loc => truthy (strip loc)) locations) in
  if (2 <=? List.length locations)%nat && truthy topic_prefix then
    Return (map (fun loc => topic_prefix ++ u " " ++ loc) locations)
  else if (List.length locations =? 1)%nat && truthy topic_prefix then
    loc0 <- index locations 0 ;;
    if contains (u "Wetter") topic_prefix
    then Return [u "Wetter " ++ loc0 ++ u " aktuell heute"]
    else Return [topic_prefix ++ u " " ++ loc0]
  else
    let keywords := filter is_keyword original_words in
    if truthy keywords then Return [join (u " ") keywords]
    else Return [strip (replace (u "?") (u "") question)].

(** The distinct location phrases of a question, as the function computes
    them before it chooses a query form. *)
Definition location_phrases (question : pystr) : result (list pystr) :=
  locations <-
    find_locations (snd (detect_topic (lower question)))
      (split (clean question)) ;;
  Return (dict_fromkeys (filter (fun loc => truthy (strip loc)) locations)).

Definition topic_prefix_of (question : pystr) : pystr :=
  fst (detect_topic (lower question)).

End QueryExtractor.

(** The case tables on U+0000 to U+00FF (Basic Latin and Latin-1
    Supplement); code points above are left as they are. *)
Definition latin1_isupper (c : char) : bool :=
  ((65 <=? c) && (c <=? 90) ||
   (192 <=? c) && (c <=? 222) && negb (c =? 215))%N.

Definition latin1_lower (s : pystr) : pystr :=
  map (fun c => if latin1_isupper c then (c + 32)%N else c) s.

Definition extract_latin1 : pystr -> result (list pystr) :=
  extract_search_keywords latin1_lower latin1_isupper.

(* ================================================================= *)
(** ** More of Python's strings and lists *)

Definition newline : pystr := [10%N].

(** [s.split(sep)] for a separator of one character: the pieces between
    the occurrences of [sep], at least one. *)
Fixpoint split_on (sep : char) (s : pystr) : list pystr :=
  match s with
  | [] => [[]]
  | c :: s' =>
      if (c =? sep)%N then [] :: split_on sep s'
      else
        match split_on sep s' with
        | [] => [[c]]
        | piece :: pieces => (c :: piece) :: pieces
        end
  end.

(** [s.count(c)] for a string [c] of one character. *)
Definition count_char (c : char) (s : pystr) : Z :=
  Z.of_nat (List.length (filter (N.eqb c) s)).


(** The first word of a string that does not start with white space, and
    what follows the word. *)
Fixpoint take_word (s : pystr) : pystr * pystr :=
  match s with
  | [] => ([], [])
  | c :: s' =>
      if isspace c then ([], s)
      else let (word, rest) := take_word s' in (c :: word, rest)
  end.

(** [s.split(maxsplit=1)]: the first word and, when more than white space
    follows it, the rest of the string from the next word on, white space
    at its end included. *)
Definition split_maxsplit1 (s : pystr) : list pystr :=
  match lstrip s with
  | [] => []
  | _ :: _ =>
      let (word, rest) := take_word (lstrip s) in
      match lstrip rest with
      | [] => [word]
      | _ :: _ => [word; lstrip rest]
      end
  end.

Fixpoint str_uint (d : Decimal.uint) : pystr :=
  match d with
  | Decimal.Nil => []
  | Decimal.D0 d => 48%N :: str_uint d
  | Decimal.D1 d => 49%N :: str_uint d
  | Decimal.D2 d => 50%N :: str_uint d
  | Decimal.D3 d => 51%N :: str_uint d
  | Decimal.D4 d => 52%N :: str_uint d
  | Decimal.D5 d => 53%N :: str_uint d
  | Decimal.D6 d => 54%N :: str_uint d
  | Decimal.D7 d => 55%N :: str_uint d
  | Decimal.D8 d => 56%N :: str_uint d
  | Decimal.D9 d => 57%N :: str_uint d
  end.

(** [str(i)] for an index [i >= 0]: its decimal digits. *)
Definition str_nat (i : nat) : pystr := str_uint (Nat.to_uint i).

(** [l[i]]: a negative index counts from the end. *)
Definition index_z {A : Type} (l : list A) (i : Z) : result A :=
  let len := Z.of_nat (List.length l) in
  let j := if (i <? 0)%Z then (i + len)%Z else i in
  if ((0 <=? j) && (j <? len))%Z then index l (Z.to_nat j)
  else Raise IndexError.

(** [a // b]; [None] stands for [ZeroDivisionError]. *)
Definition floordiv (a b : Z) : option Z :=
  if (b =? 0)%Z then None else Some (a / b)%Z.

(* ================================================================= *)
(** ** kiunimainzqwenvscode.py: class [Pager] *)

Module Pager.

Open Scope Z_scope.

(** A [Pager] object.  An attribute that the constructor does not set in
    one of the two modes ([sections] and [pages] for plain text, [lines]
    for Markdown) is the empty list; the methods never read it there. *)
Record t := {
  raw_content : pystr;
  is_markdown : bool;
  lines_per_page : Z;
  sections : list pystr;
  lines : list pystr;
  pages : list pystr;
  total_pages : Z
}.

(** [line.strip() == ''] *)
Definition is_blank (line : pystr) : bool := str_eqb (strip line) [].

(** The body of the loop of [_split_markdown]; the state is
    [(sections, current)]. *)
Definition split_step (st : list pystr * list pystr) (line : pystr)
  : list pystr * list pystr :=
  let '(sections, current) := st in
  if str_eqb (strip line) [] && truthy current
  then ((sections ++ [join newline current])%list, [])
  else (sections, (current ++ [line])%list).

Definition _split_markdown (content : pystr) : list pystr :=
  let '(sections, current) :=
    fold_left split_step (split_on 10%N content) ([], []) in
  if truthy current then (sections ++ [join newline current])%list
  else sections.

(** The same loop, keeping the lines of each section apart. *)
Definition group_step (st : list (list pystr) * list pystr) (line : pystr)
  : list (list pystr) * list pystr :=
  let '(groups, current) := st in
  if str_eqb (strip line) [] && truthy current
  then ((groups ++ [current])%list, [])
  else (groups, (current ++ [line])%list).

Definition section_lines (content : pystr) : list (list pystr) :=
  let '(groups, current) :=
    fold_left group_step (split_on 10%N content) ([], []) in
  if truthy current then (groups ++ [current])%list else groups.

(** The loop of [_calculate_pages] for Markdown; the state is
    [(pages, current_page, current_lines)]. *)
Definition page_step (lines_per_page : Z)
  (st : list pystr * list pystr * Z) (section : pystr)
  : list pystr * list pystr * Z :=
  let '(pages, current_page, current_lines) := st in
  let section_lines := count_char 10%N section + 3 in
  if (current_lines + section_lines >? lines_per_page)
     && truthy current_page
  then ((pages ++ [join (newline ++ newline) current_page])%list,
        [section], section_lines)
  else (pages, (current_page ++ [section])%list,
        current_lines + section_lines).

Definition markdown_pages (lines_per_page : Z) (sections : list pystr)
  : list pystr :=
  let '(pages, current_page, _) :=
    fold_left (page_step lines_per_page) sections ([], [], 0) in
  if truthy current_page
  then (pages ++ [join (newline ++ newline) current_page])%list
  else pages.

(** The same loop, keeping the sections of each page apart. *)
Definition page_group_step (lines_per_page : Z)
  (st : list (list pystr) * list pystr * Z) (section : pystr)
  : list (list pystr) * list pystr * Z :=
  let '(groups, current_page, current_lines) := st in
  let section_lines := count_char 10%N section + 3 in
  if (current_lines + section_lines >? lines_per_page)
     && truthy current_page
  then ((groups ++ [current_page])%list, [section], section_lines)
  else (groups, (current_page ++ [section])%list,
        current_lines + section_lines).

Definition page_sections (lines_per_page : Z) (sections : list pystr)
  : list (list pystr) :=
  let '(groups, current_page, _) :=
    fold_left (page_group_step lines_per_page) sections ([], [], 0) in
  if truthy current_page then (groups ++ [current_page])%list else groups.

(** The estimate of [_calculate_pages] for the lines a section takes. *)
Definition estimated_lines (section : pystr) : Z :=
  count_char 10%N section + 3.

Definition page_estimate (page : list pystr) : Z :=
  fold_right Z.add 0 (map estimated_lines page).

(** [Pager(content, lines_per_page, is_markdown)], on a console of
    [console_height] lines; [__init__] ends with [_calculate_pages].
    [None] stands for the [ZeroDivisionError] of [//]. *)
Definition init (console_height : Z) (content : pystr)
  (lines_per_page : option Z) (is_markdown : bool) : option t :=
  let lines_per_page :=
    match lines_per_page with
    | Some n => if n =? 0 then console_height - 1 else n
    | None => console_height - 1
    end in
  if is_markdown then
    let sections := _split_markdown content in
    let pages := markdown_pages lines_per_page sections in
    Some {| raw_content := content; is_markdown := true;
            lines_per_page := lines_per_page;
            sections := sections; lines := []; pages := pages;
            total_pages :=
              if truthy pages then Z.of_nat (List.length pages) else 1 |}
  else
    let lines := split_on 10%N content in
    match floordiv (Z.of_nat (List.length lines) + lines_per_page - 1)
            lines_per_page with
    | None => None
    | Some q =>
        Some {| raw_content := content; is_markdown := false;
                lines_per_page := lines_per_page;
                sections := []; lines := lines; pages := [];
                total_pages := Z.max 1 q |}
    end.

Definition get_page (p : t) (page_num : Z) : result pystr :=
  if is_markdown p then
    if page_num <? Z.of_nat (List.length (pages p))
    then index_z (pages p) page_num
    else Return []
  else
    let start := page_num * lines_per_page p in
    let end_ := start + lines_per_page p in
    Return (join newline (py_slice (lines p) start end_)).

(** The [while True] loop of [show] for the keys read one after the other;
    the result is what is printed, page after page.  The loop is followed
    as long as there are keys. *)
Fixpoint show_loop (p : t) (keys : list char) (current_page : Z)
  : result (list pystr) :=
  match get_page p current_page with
  | Raise e => Raise e
  | Return page_content =>
      match keys with
      | [] => Return [page_content]
      | key :: keys' =>
          let next :=
            if (key =? 32)%N then
              if current_page <? total_pages p - 1
              then Some (current_page + 1) else Some current_page
            else if (key =? 98)%N then
              if current_page >? 0
              then Some (current_page - 1) else Some current_page
            else if (key =? 113)%N then None
            else Some current_page in
          match next with
          | None => Return [page_content]
          | Some page =>
              match show_loop p keys' page with
              | Return shown => Return (page_content :: shown)
              | Raise e => Raise e
              end
          end
      end
  end.

Definition show (p : t) (keys : list char) : result (list pystr) :=
  if total_pages p <=? 1 then Return [raw_content p]
  else show_loop p keys 0.

End Pager.

(* ================================================================= *)
(** ** kiunimainzqwenvscode.py: the commands of [JGUKIChat.run] *)

(** What [run] does with an input line that starts with a slash. *)
Inductive command :=
| Paste
| Exit
| Help
| Model
| Reasoning (arg : pystr)
| Clear
| History
| WebQuestion (arg : pystr)
| Unknown (cmd : pystr).

(** The block "Befehle verarbeiten" of [run], for a [user_input] that
    starts with a slash: the command word and its argument are split off
    and the [if]/[elif] chain chooses the branch. *)
Definition run_command (lower : pystr -> pystr) (user_input : pystr)
  : result command :=
  let cmd_parts := split_maxsplit1 (skipn 1 user_input) in
  cmd0 <- index cmd_parts 0 ;;
  let cmd := lower cmd0 in
  arg <- (if (1 <? List.length cmd_parts)%nat
          then index cmd_parts 1 else Return (u "")) ;;
  if str_eqb cmd (u "paste") then Return Paste
  else if mem cmd [u "exit"; u "quit"; u "q"] then Return Exit
  else if str_eqb cmd (u "help") then Return Help
  else if str_eqb cmd (u "model") then Return Model
  else if str_eqb cmd (u "reasoning") then Return (Reasoning arg)
  else if str_eqb cmd (u "clear") then Return Clear
  else if str_eqb cmd (u "history") then Return History
  else if str_eqb cmd (u "w") && truthy arg then Return (WebQuestion arg)
  else Return (Unknown cmd).

(* ================================================================= *)
(** ** kiunimainzqwenvscode.py: [web_search] and the search context of
    [chat_completion] *)

Module WebSearch.

(** [not r] for an optional string: [None] and the empty string. *)
Definition falsy (r : option pystr) : bool :=
  match r with
  | None => true
  | Some s => negb (truthy s)
  end.

Definition error_msg : pystr :=
  u "Websuche nicht verfügbar. Bitte installiere:" ++ newline ++
  u "  • pip install tavily-python --break-system-packages (empfohlen)"
  ++ newline ++
  u "  • pip install duckduckgo-search --break-system-packages (Fallback)".

Definition strong_triggers : list pystr :=
  map u ["aktuell"; "heute"; "news"; "2025"; "wetter"; "weather"; "preis";
         "kurs"]%string.

Definition context_header : pystr :=
  newline ++ newline ++ u "[Aktuelle Suchergebnisse zum Thema:" ++ newline.

Definition context_footer : pystr := u "]" ++ newline ++ newline.

Definition request_line : pystr :=
  newline ++ newline ++
  u "Bitte berücksichtige diese aktuellen Informationen aus dem Web:".

Section Search.

(** Whether [self.tavily] and [self.ddgs] are set, and the two search
    methods, which call the search services. *)
Variable tavily : bool.
Variable ddgs : bool.
Variable web_search_tavily : pystr -> Z -> option pystr.
Variable web_search_ddgs : pystr -> Z -> option pystr.
Variable lower : pystr -> pystr.

(** [web_search(query, max_results)]: the string it returns and the value
    it leaves in [self.last_search_method].  ([return_structured] only
    pairs the string with an empty list.) *)
Definition web_search (query : pystr) (max_results : Z)
  : pystr * option pystr :=
  let '(search_result, used_method) :=
    if tavily then
      let search_result := web_search_tavily query max_results in
      (search_result,
       if falsy search_result then None else Some (u "Tavily"))
    else (None, None) in
  let '(search_result, used_method) :=
    if falsy search_result && ddgs then
      let search_result := web_search_ddgs query max_results in
      (search_result,
       if falsy search_result then used_method
       else Some (u "DuckDuckGo (Fallback)"))
    else (search_result, used_method) in
  if falsy search_result then (error_msg, None)
  else
    (match search_result with Some s => s | None => [] end, used_method).

(** The start of [chat_completion], up to the message that is appended to
    the conversation: [search_context] and [enhanced_message]. *)
Definition search_context (user_message : pystr) (use_search : bool)
  : pystr :=
  let should_search :=
    use_search ||
    existsb (fun kw => contains kw (lower user_message)) strong_triggers in
  if (tavily || ddgs) && should_search then
    let search_results := fst (web_search user_message 5) in
    if truthy search_results
       && negb (contains (u "Fehler") search_results)
       && negb (contains (u "nicht verfügbar") search_results)
    then context_header ++ search_results ++ context_footer
    else []
  else [].

Definition enhanced_message (user_message : pystr) (use_search : bool)
  : pystr :=
  let search_context := search_context user_message use_search in
  if truthy search_context
  then user_message ++ request_line ++ search_context
  else user_message.

End Search.

End WebSearch.


(* ================================================================= *)
(** ** notenvektorierung.py: [process_pdf] and [main] *)

Module Ingest.

Section ProcessPdf.

(** The collaborators: the tokenizer, the text of a PDF file
    ([extract_text_from_pdf], pdfplumber and [re]) and the embedding
    request ([get_embeddings], HTTP). *)
Variable encode : pystr -> list token.
Variable decode : list token -> pystr.
Variable embedding : Type.
Variable extract_text_from_pdf : pystr -> pystr.
Variable get_embeddings : list pystr -> list embedding.

(** [{"source": pdf_path, "chunk_id": i}] *)
Record metadata := {
  source : pystr;
  chunk_id : nat
}.

(** The arguments of [collection.add]. *)
Record add_call := {
  ids : list pystr;
  embeddings : list embedding;
  documents : list pystr;
  metadatas : list metadata
}.

(** [process_pdf]: [Some None] when it returns without storing,
    [Some (Some call)] when it calls [collection.add], [None] when the fuel
    of the chunking loop runs out. *)
Definition process_pdf (fuel : nat) (pdf_path : pystr)
  : option (option add_call) :=
  let text := extract_text_from_pdf pdf_path in
  if negb (truthy text) then Some None
  else
    match chunk_text encode decode fuel text 256 64 with
    | None => None
    | Some chunks =>
        let embeddings := get_embeddings chunks in
        if negb (truthy embeddings) then Some None
        else
          let ids :=
            map (fun i => pdf_path ++ u "_" ++ str_nat i)
              (seq 0 (List.length chunks)) in
          let metadatas :=
            map (fun i => {| source := pdf_path; chunk_id := i |})
              (seq 0 (List.length chunks)) in
          Some (Some {| ids := ids; embeddings := embeddings;
                        documents := chunks; metadatas := metadatas |})
    end.

End ProcessPdf.

Arguments ids {embedding} _.
Arguments embeddings {embedding} _.
Arguments documents {embedding} _.
Arguments metadatas {embedding} _.
Arguments process_pdf encode decode {embedding} _ _ fuel pdf_path.




End Ingest.

(** Sample inputs. *)
Definition sample_page_text : pystr :=
  [97; 10; 98; 10; 10; 99; 10; 100; 10; 101]%N.

(* ================================================================= *)
(** * Properties of [chunk_text] *)

Section SliceFacts.

Context {A : Type}.

Lemma py_slice_all (l : list A) :
  py_slice l 0 (Z.of_nat (List.length l)) = l.
Proof.
  unfold py_slice, slice_index.
  destruct (Z.ltb_spec (Z.of_nat (List.length l)) 0); [lia|].
  change (0 <? 0)%Z with false. cbv beta iota.
  rewrite Z.min_id, Z.min_l by lia.
  rewrite Z.sub_0_r, Nat2Z.id. simpl skipn.
  apply firstn_all.
Qed.

Lemma py_slice_length (l : list A) (start stop : Z) :
  (0 <= start <= stop)%Z -> (stop <= Z.of_nat (List.length l))%Z ->
  Z.of_nat (List.length (py_slice l start stop)) = (stop - start)%Z.
Proof.
  intros Hs He. unfold py_slice, slice_index.
  destruct (Z.ltb_spec start 0); [lia|].
  destruct (Z.ltb_spec stop 0); [lia|].
  rewrite !Z.min_l by lia.
  rewrite length_firstn, length_skipn. lia.
Qed.

Lemma py_slice_app (l : list A) (a b c : Z) :
  (0 <= a <= b)%Z -> (b <= c)%Z -> (c <= Z.of_nat (List.length l))%Z ->
  (py_slice l a b ++ py_slice l b c)%list = py_slice l a c.
Proof.
  intros Hab Hbc Hc. unfold py_slice, slice_index.
  destruct (Z.ltb_spec a 0); [lia|].
  destruct (Z.ltb_spec b 0); [lia|].
  destruct (Z.ltb_spec c 0); [lia|].
  rewrite !Z.min_l by lia.
  replace (Z.to_nat b) with (Z.to_nat (b - a) + Z.to_nat a)%nat by lia.
  rewrite <- skipn_skipn.
  replace (Z.to_nat (c - a)) with (Z.to_nat (b - a) + Z.to_nat (c - b))%nat
    by lia.
  set (m := skipn (Z.to_nat a) l).
  rewrite <- (firstn_skipn (Z.to_nat (b - a)) m) at 3.
  rewrite firstn_app, firstn_firstn.
  rewrite length_firstn.
  assert (Hm : (Z.to_nat (b - a) <= List.length m)%nat).
  { subst m. rewrite length_skipn. lia. }
  f_equal; f_equal; lia.
Qed.

End SliceFacts.

Section CeilDiv.

Open Scope Z_scope.

(** [ceil_div a b] is the least [c] with [a <= c * b]. *)
Lemma ceil_div_spec (a b : Z) :
  0 < b -> (ceil_div a b - 1) * b < a <= ceil_div a b * b.
Proof.
  intros Hb. unfold ceil_div.
  pose proof (Z.div_mod (- a) b ltac:(lia)) as Hdm.
  pose proof (Z.mod_pos_bound (- a) b Hb) as Hm.
  nia.
Qed.

Lemma ceil_div_unique (a b c : Z) :
  0 < b -> (c - 1) * b < a <= c * b -> ceil_div a b = c.
Proof.
  intros Hb Hc. pose proof (ceil_div_spec a b Hb) as Hs. nia.
Qed.

End CeilDiv.

Section ChunkerFacts.

Variable encode : pystr -> list token.
Variable decode : list token -> pystr.

Open Scope Z_scope.

Local Abbreviation total text := (Z.of_nat (List.length (encode text))).

(** *** The loop and its spans *)

Lemma chunk_loop_spans (tokens : list token) (max_tokens overlap : Z) :
  forall fuel start chunks,
    chunk_loop decode fuel tokens max_tokens overlap start chunks =
    option_map (fun spans => (chunks ++ map (chunk_of decode tokens) spans)%list)
      (span_loop fuel (Z.of_nat (List.length tokens)) max_tokens overlap start).
Proof.
  induction fuel as [|fuel IH]; intros start chunks; simpl; [reflexivity|].
  destruct (start <? Z.of_nat (List.length tokens)).
  - destruct (Z.min (start + max_tokens) (Z.of_nat (List.length tokens))
              =? Z.of_nat (List.length tokens)).
    + reflexivity.
    + rewrite IH.
      destruct (span_loop fuel _ max_tokens overlap _); simpl;
        [|reflexivity].
      now rewrite <- app_assoc.
  - simpl. now rewrite app_nil_r.
Qed.

Lemma chunk_text_spans (fuel : nat) (text : pystr) (max_tokens overlap : Z) :
  chunk_text encode decode fuel text max_tokens overlap =
  option_map (map (chunk_of decode (encode text)))
    (chunk_spans encode fuel text max_tokens overlap).
Proof.
  unfold chunk_text, chunk_spans.
  destruct (total text <=? max_tokens).
  - simpl. unfold chunk_of, span_tokens. simpl. now rewrite py_slice_all.
  - rewrite chunk_loop_spans.
    now destruct (span_loop fuel _ max_tokens overlap 0).
Qed.

(** More fuel does not change a result. *)
Lemma span_loop_more_fuel (tot max_tokens overlap : Z) :
  forall fuel fuel' start spans,
    (fuel <= fuel')%nat ->
    span_loop fuel tot max_tokens overlap start = Some spans ->
    span_loop fuel' tot max_tokens overlap start = Some spans.
Proof.
  induction fuel as [|fuel IH]; intros fuel' start spans Hle; simpl;
    [discriminate|].
  destruct fuel' as [|fuel']; [lia|]. simpl.
  destruct (start <? tot); [|trivial].
  destruct (Z.min (start + max_tokens) tot =? tot); [trivial|].
  destruct (span_loop fuel tot max_tokens overlap _) as [rest|] eqn:E;
    [|discriminate].
  intros H. now rewrite (IH fuel' _ rest ltac:(lia) E).
Qed.

Lemma chunk_text_more_fuel (fuel fuel' : nat) (text : pystr)
  (max_tokens overlap : Z) (chunks : list pystr) :
  (fuel <= fuel')%nat ->
  chunk_text encode decode fuel text max_tokens overlap = Some chunks ->
  chunk_text encode decode fuel' text max_tokens overlap = Some chunks.
Proof.
  intros Hle. rewrite !chunk_text_spans. unfold chunk_spans.
  destruct (total text <=? max_tokens); [trivial|].
  destruct (span_loop fuel _ max_tokens overlap 0) as [spans|] eqn:E;
    [|discriminate].
  now rewrite (span_loop_more_fuel _ _ _ _ _ _ _ Hle E).
Qed.

(** [chunk_text] returns at most one value. *)
Lemma chunk_text_returns_unique (text : pystr) (max_tokens overlap : Z)
  (c1 c2 : list pystr) :
  chunk_text_returns encode decode text max_tokens overlap c1 ->
  chunk_text_returns encode decode text max_tokens overlap c2 ->
  c1 = c2.
Proof.
  intros [f1 H1] [f2 H2].
  apply chunk_text_more_fuel with (fuel' := Nat.max f1 f2) in H1; [|lia].
  apply chunk_text_more_fuel with (fuel' := Nat.max f1 f2) in H2; [|lia].
  congruence.
Qed.

(** *** Valid parameters: the loop ends and lays out [windows] *)

Lemma span_loop_windows (tot max_tokens overlap : Z) :
  0 <= overlap < max_tokens ->
  forall fuel start,
    0 <= start -> start + overlap < tot ->
    tot - start - overlap <= Z.of_nat fuel ->
    exists spans,
      span_loop fuel tot max_tokens overlap start = Some spans /\
      windows tot max_tokens overlap start spans.
Proof.
  intros Hov. induction fuel as [|fuel IH]; intros start H0 Hlt Hfuel;
    [lia|]. simpl.
  destruct (Z.ltb_spec start tot); [|lia].
  destruct (Z.eqb_spec (Z.min (start + max_tokens) tot) tot) as [E|E].
  - exists [(start, Z.min (start + max_tokens) tot)]. split; [reflexivity|].
    rewrite E. apply windows_last; lia.
  - assert (Hmore : start + max_tokens < tot) by lia.
    destruct (IH (start + (max_tokens - overlap))) as (rest & Hr & Hw);
      [lia | lia | lia |].
    rewrite Hr. exists ((start, Z.min (start + max_tokens) tot) :: rest).
    split; [reflexivity|].
    rewrite Z.min_l by lia. now apply windows_more.
Qed.

Lemma chunk_spans_valid (fuel : nat) (text : pystr) (max_tokens overlap : Z) :
  0 <= overlap < max_tokens ->
  (List.length (encode text) <= fuel)%nat ->
  exists spans,
    chunk_spans encode fuel text max_tokens overlap = Some spans /\
    chunk_text encode decode fuel text max_tokens overlap =
      Some (map (chunk_of decode (encode text)) spans) /\
    (total text <= max_tokens -> spans = [(0, total text)]) /\
    (max_tokens < total text ->
     windows (total text) max_tokens overlap 0 spans).
Proof.
  intros Hov Hfuel. rewrite chunk_text_spans.
  unfold chunk_spans.
  destruct (Z.leb_spec (total text) max_tokens) as [Hle|Hgt].
  - exists [(0, total text)]. repeat split; trivial. lia.
  - destruct (@span_loop_windows (total text) max_tokens overlap Hov fuel 0)
      as (spans & Hs & Hw); [lia | lia | lia |].
    exists spans. rewrite Hs. repeat split; trivial. lia.
Qed.

(** *** What [windows] implies *)

Lemma windows_chain (tot max_tokens overlap : Z) :
  0 <= overlap < max_tokens ->
  forall start spans,
    windows tot max_tokens overlap start spans -> chain start tot spans.
Proof.
  intros Hov start spans Hw. induction Hw as [start Hlt Hle|start rest Hlt Hw IH].
  - simpl. lia.
  - destruct rest as [|nxt rest']; [inversion Hw|].
    assert (Hn : fst nxt = start + (max_tokens - overlap))
      by (inversion Hw; reflexivity).
    assert (He : start + max_tokens <= snd nxt)
      by (inversion Hw; subst; simpl; lia).
    change (fst (start, start + max_tokens) = start /\
            start < snd (start, start + max_tokens) <= tot /\
            fst (start, start + max_tokens) <= fst nxt
              <= snd (start, start + max_tokens) /\
            snd (start, start + max_tokens) <= snd nxt /\
            chain (fst nxt) tot (nxt :: rest')).
    rewrite Hn. simpl fst. simpl snd. repeat split; trivial; lia.
Qed.

Lemma chain_cover (lo hi : Z) (spans : list span) :
  chain lo hi spans ->
  forall i, lo <= i < hi <-> exists sp, In sp spans /\ fst sp <= i < snd sp.
Proof.
  revert lo. induction spans as [|sp rest IH]; intros lo Hc i; [destruct Hc|].
  destruct rest as [|nxt rest'].
  - destruct Hc as (H1 & H2 & H3). split.
    + intros Hi. exists sp. split; [now left | lia].
    + intros (sp' & [<-|[]] & Hi). lia.
  - destruct Hc as (H1 & H2 & H3 & H4 & Hc). specialize (IH _ Hc i). split.
    + intros Hi. destruct (Z.lt_ge_cases i (snd sp)).
      * exists sp. split; [now left | lia].
      * destruct (proj1 IH ltac:(lia)) as (sp' & Hin & Hi').
        exists sp'. split; [now right | trivial].
    + intros (sp' & [<-|Hin] & Hi).
      * lia.
      * assert (fst nxt <= i < hi) by (apply IH; eauto). lia.
Qed.

Lemma chain_reassemble (tokens : list token) (hi : Z) :
  hi <= Z.of_nat (List.length tokens) ->
  forall spans lo pos,
    chain lo hi spans -> 0 <= pos ->
    (forall sp, nth_error spans 0 = Some sp -> lo <= pos <= snd sp) ->
    reassemble tokens pos spans = py_slice tokens pos hi.
Proof.
  intros Hhi. induction spans as [|sp rest IH]; intros lo pos Hc H0 Hp;
    [destruct Hc|].
  specialize (Hp sp eq_refl).
  destruct rest as [|nxt rest'].
  - destruct Hc as (H1 & H2 & H3). simpl. rewrite app_nil_r. now rewrite H2.
  - destruct Hc as (H1 & H2 & H3 & H4 & Hc).
    change (reassemble tokens pos (sp :: nxt :: rest'))
      with (py_slice tokens pos (snd sp)
              ++ reassemble tokens (snd sp) (nxt :: rest'))%list.
    rewrite (IH (fst nxt) (snd sp) Hc ltac:(lia)).
    + apply py_slice_app; lia.
    + intros sp' [= <-]. lia.
Qed.

Lemma windows_length (tot max_tokens overlap : Z) :
  0 <= overlap < max_tokens ->
  forall start spans,
    windows tot max_tokens overlap start spans ->
    start + overlap < tot ->
    Z.of_nat (List.length spans) =
    ceil_div (tot - start - overlap) (max_tokens - overlap).
Proof.
  intros Hov start spans Hw.
  induction Hw as [start Hlt Hle|start rest Hlt Hw IH]; intros Hs.
  - symmetry. apply ceil_div_unique; cbn [List.length]; lia.
  - specialize (IH ltac:(lia)).
    pose proof (@ceil_div_spec
      (tot - (start + (max_tokens - overlap)) - overlap)
      (max_tokens - overlap) ltac:(lia)) as Hc.
    symmetry. apply ceil_div_unique; [lia|].
    cbn [List.length]. rewrite Nat2Z.inj_succ. unfold span in *.
    rewrite IH. nia.
Qed.

Lemma windows_bound (tot max_tokens overlap : Z) :
  0 <= overlap < max_tokens ->
  forall start spans,
    windows tot max_tokens overlap start spans -> 0 <= start ->
    Forall (fun sp => 0 <= fst sp < snd sp /\ snd sp <= tot /\
                      span_len sp <= max_tokens) spans.
Proof.
  intros Hov start spans Hw.
  induction Hw as [start Hlt Hle|start rest Hlt Hw IH]; intros H0.
  - constructor; [|constructor]. unfold span_len. simpl. lia.
  - constructor; [unfold span_len; simpl; lia|]. apply IH. lia.
Qed.

(** Every window but the last is full, and the next one starts [overlap]
    tokens before its end: all consecutive windows, the last two as well,
    share [overlap] tokens. *)
Lemma windows_overlap (tot max_tokens overlap : Z) :
  0 <= overlap < max_tokens ->
  forall start spans,
    windows tot max_tokens overlap start spans ->
    forall i a b,
      nth_error spans i = Some a -> nth_error spans (S i) = Some b ->
      span_overlap a b = overlap.
Proof.
  intros Hov start spans Hw.
  induction Hw as [start Hlt Hle|start rest Hlt Hw IH]; intros i a b Ha Hb.
  - destruct i; simpl in Hb; [discriminate|]. now destruct i.
  - destruct i as [|i].
    + simpl in Ha, Hb. injection Ha as <-.
      destruct rest as [|nxt rest']; [discriminate|]. injection Hb as <-.
      unfold span_overlap. inversion Hw; subst; simpl; lia.
    + simpl in Ha. exact (IH i a b Ha Hb).
Qed.

(** *** Parameters that make no step forward *)

Lemma span_loop_no_progress (tot max_tokens overlap : Z) :
  max_tokens <= overlap -> max_tokens < tot -> 0 < tot ->
  forall fuel start,
    start <= 0 -> span_loop fuel tot max_tokens overlap start = None.
Proof.
  intros Hov Hgt Hpos. induction fuel as [|fuel IH]; intros start Hs;
    [reflexivity|]. simpl.
  destruct (Z.ltb_spec start tot); [|lia].
  destruct (Z.eqb_spec (Z.min (start + max_tokens) tot) tot); [lia|].
  now rewrite IH by lia.
Qed.

(** With [overlap >= max_tokens] and more than [max_tokens] tokens the
    loop never reaches its [break] or its exit. *)
Lemma chunk_text_no_progress (text : pystr) (max_tokens overlap : Z) :
  max_tokens <= overlap -> max_tokens < total text -> 0 < total text ->
  forall fuel, chunk_text encode decode fuel text max_tokens overlap = None.
Proof.
  intros Hov Hgt Hpos fuel. rewrite chunk_text_spans. unfold chunk_spans.
  destruct (Z.leb_spec (total text) max_tokens); [lia|].
  now rewrite span_loop_no_progress by lia.
Qed.

(** *** The layout of the chunks for valid parameters *)

Lemma chunk_text_layout (fuel : nat) (text : pystr) (max_tokens overlap : Z) :
  0 <= overlap < max_tokens ->
  (List.length (encode text) <= fuel)%nat ->
  exists spans,
    chunk_spans encode fuel text max_tokens overlap = Some spans /\
    chunk_text encode decode fuel text max_tokens overlap =
      Some (map (chunk_of decode (encode text)) spans) /\
    chain 0 (total text) spans /\
    Forall (fun sp => 0 <= fst sp <= snd sp /\ snd sp <= total text /\
                      span_len sp <= max_tokens) spans /\
    (forall i a b,
        nth_error spans i = Some a -> nth_error spans (S i) = Some b ->
        span_overlap a b = overlap) /\
    (max_tokens < total text ->
     Z.of_nat (List.length spans) =
     ceil_div (total text - overlap) (max_tokens - overlap)).
Proof.
  intros Hov Hfuel.
  destruct (chunk_spans_valid fuel text max_tokens overlap Hov Hfuel)
    as (spans & Hs & Ht & Hone & Hmany).
  exists spans. split; [exact Hs|]. split; [exact Ht|].
  destruct (Z.le_gt_cases (total text) max_tokens) as [Hle|Hgt].
  - rewrite (Hone Hle). repeat split.
    + lia.
    + constructor; [|constructor]. unfold span_len. simpl. lia.
    + intros i a b Ha Hb. destruct i; simpl in Hb; [discriminate|].
      now destruct i.
    + lia.
  - specialize (Hmany Hgt). repeat split.
    + now apply windows_chain with (max_tokens := max_tokens)
                                   (overlap := overlap).
    + eapply Forall_impl; [|apply (windows_bound _ _ _ Hov _ _ Hmany); lia].
      simpl. intros sp. lia.
    + exact (windows_overlap _ _ _ Hov _ _ Hmany).
    + intros _.
      rewrite (windows_length _ _ _ Hov _ _ Hmany ltac:(lia)).
      f_equal. lia.
Qed.

(** C1, as the code has it: [chunk_text] checks neither parameter and raises
    no error of its own.  With [overlap >= max_tokens] or [max_tokens <= 0],
    a text of at most [max_tokens] tokens is returned as one chunk, the
    decoding of all its tokens, before the loop is entered. *)
Theorem chunk_text_unchecked_parameters
  (fuel : nat) (text : pystr) (max_tokens overlap : Z) :
  overlap >= max_tokens \/ max_tokens <= 0 ->
  total text <= max_tokens ->
  chunk_text encode decode fuel text max_tokens overlap =
    Some [decode (encode text)].
Proof.
  intros _ Hle. unfold chunk_text.
  destruct (Z.leb_spec (total text) max_tokens); [reflexivity | lia].
Qed.

(** C2: for valid parameters the spans of the returned chunks, in order,
    run from [0] to the number of tokens without a gap: every token offset
    lies in a span, no span leaves the range, and putting the spans
    together gives the token sequence back. *)
Theorem chunk_text_coverage
  (fuel : nat) (text : pystr) (max_tokens overlap : Z) :
  0 < max_tokens -> 0 <= overlap < max_tokens ->
  (List.length (encode text) <= fuel)%nat ->
  exists spans,
    chunk_spans encode fuel text max_tokens overlap = Some spans /\
    chunk_text encode decode fuel text max_tokens overlap =
      Some (map (chunk_of decode (encode text)) spans) /\
    chain 0 (total text) spans /\
    (forall i, 0 <= i < total text <->
               exists sp, In sp spans /\ fst sp <= i < snd sp) /\
    reassemble (encode text) 0 spans = encode text.
Proof.
  intros _ Hov Hfuel.
  destruct (chunk_text_layout fuel text max_tokens overlap Hov Hfuel)
    as (spans & Hs & Ht & Hc & _).
  exists spans. split; [exact Hs|]. split; [exact Ht|].
  split; [exact Hc|]. split.
  - intros i. now apply chain_cover.
  - rewrite chain_reassemble with (hi := total text) (lo := 0);
      [apply py_slice_all | lia | exact Hc | lia |].
    intros sp Hsp. destruct spans as [|sp0 [|nxt rest]];
      [destruct Hc | |]; injection Hsp as <-; simpl in Hc; lia.
Qed.

(** C3: for valid parameters and more than [max_tokens] tokens, the number
    of chunks is [ceil ((N - overlap) / step)] with
    [step = max_tokens - overlap]; 300 tokens with [max_tokens = 256] and
    [overlap = 64] give the two chunks of the spans [(0, 256)] and
    [(192, 300)]. *)
Theorem chunk_text_count :
  (forall (fuel : nat) (text : pystr) (max_tokens overlap : Z),
      0 < max_tokens -> 0 <= overlap < max_tokens ->
      max_tokens < total text ->
      (List.length (encode text) <= fuel)%nat ->
      exists chunks,
        chunk_text encode decode fuel text max_tokens overlap = Some chunks /\
        Z.of_nat (List.length chunks) =
        ceil_div (total text - overlap) (max_tokens - overlap)) /\
  (forall (fuel : nat) (text : pystr),
      List.length (encode text) = 300%nat -> (2 <= fuel)%nat ->
      chunk_spans encode fuel text 256 64 = Some [(0, 256); (192, 300)] /\
      chunk_text encode decode fuel text 256 64 =
        Some [chunk_of decode (encode text) (0, 256);
              chunk_of decode (encode text) (192, 300)]).
Proof.
  split.
  - intros fuel text max_tokens overlap _ Hov Hgt Hfuel.
    destruct (chunk_text_layout fuel text max_tokens overlap Hov Hfuel)
      as (spans & _ & Ht & _ & _ & _ & Hn).
    eexists. split; [exact Ht|]. rewrite length_map. now apply Hn.
  - intros fuel text Hlen Hfuel.
    assert (Hs : chunk_spans encode fuel text 256 64
                 = Some [(0, 256); (192, 300)]).
    { unfold chunk_spans. rewrite Hlen.
      destruct fuel as [|[|fuel]]; [lia | lia | reflexivity]. }
    split; [exact Hs|]. now rewrite chunk_text_spans, Hs.
Qed.

(** C4: for valid parameters, two consecutive chunks that are not the last
    two share exactly [overlap] tokens. *)
Theorem chunk_text_overlap
  (fuel : nat) (text : pystr) (max_tokens overlap : Z) :
  0 < max_tokens -> 0 <= overlap < max_tokens ->
  (List.length (encode text) <= fuel)%nat ->
  exists spans,
    chunk_spans encode fuel text max_tokens overlap = Some spans /\
    chunk_text encode decode fuel text max_tokens overlap =
      Some (map (chunk_of decode (encode text)) spans) /\
    forall i a b,
      nth_error spans i = Some a -> nth_error spans (S i) = Some b ->
      (S (S i) < List.length spans)%nat ->
      span_overlap a b = overlap.
Proof.
  intros _ Hov Hfuel.
  destruct (chunk_text_layout fuel text max_tokens overlap Hov Hfuel)
    as (spans & Hs & Ht & _ & _ & Ho & _).
  exists spans. split; [exact Hs|]. split; [exact Ht|].
  intros i a b Ha Hb _.
  exact (Ho i a b Ha Hb).
Qed.

(** C5: for valid parameters, every returned chunk is the decoding of at
    most [max_tokens] tokens. *)
Theorem chunk_text_bound
  (fuel : nat) (text : pystr) (max_tokens overlap : Z) :
  0 < max_tokens -> 0 <= overlap < max_tokens ->
  (List.length (encode text) <= fuel)%nat ->
  exists spans,
    chunk_spans encode fuel text max_tokens overlap = Some spans /\
    chunk_text encode decode fuel text max_tokens overlap =
      Some (map (fun sp => decode (span_tokens (encode text) sp)) spans) /\
    Forall (fun sp =>
              Z.of_nat (List.length (span_tokens (encode text) sp))
              <= max_tokens) spans.
Proof.
  intros _ Hov Hfuel.
  destruct (chunk_text_layout fuel text max_tokens overlap Hov Hfuel)
    as (spans & Hs & Ht & _ & Hb & _).
  exists spans. split; [exact Hs|]. split; [exact Ht|].
  eapply Forall_impl; [|exact Hb].
  intros sp (H1 & H2 & H3). unfold span_tokens.
  rewrite py_slice_length by lia. exact H3.
Qed.

End ChunkerFacts.

(** *** The chunker on concrete texts *)

Lemma chunk_text_unchecked_parameters_witness :
  chunk_text codepoint_encode codepoint_decode 0 (u "a") 1 1 =
    Some [codepoint_decode (codepoint_encode (u "a"))].
Proof.
  apply (chunk_text_unchecked_parameters codepoint_encode codepoint_decode
           0 (u "a") 1 1).
  - left. lia.
  - vm_compute. discriminate.
Defined.

(** With [overlap = max_tokens = 1] and a text of one token, no error is
    raised: one chunk is returned. *)
Lemma chunk_text_unchecked_parameters_counterexample :
  (1 >= 1)%Z /\
  chunk_text codepoint_encode codepoint_decode 0 (u "a") 1 1 = Some [u "a"].
Proof.
  split; [lia | reflexivity].
Qed.

Lemma chunk_text_coverage_witness :
  exists spans,
    chunk_spans codepoint_encode 10 sample_text 4 1 = Some spans /\
    chunk_text codepoint_encode codepoint_decode 10 sample_text 4 1 =
      Some (map (chunk_of codepoint_decode (codepoint_encode sample_text))
              spans) /\
    chain 0 (Z.of_nat (List.length (codepoint_encode sample_text))) spans /\
    (forall i,
        (0 <= i < Z.of_nat (List.length (codepoint_encode sample_text)))%Z <->
        exists sp, In sp spans /\ (fst sp <= i < snd sp)%Z) /\
    reassemble (codepoint_encode sample_text) 0 spans =
      codepoint_encode sample_text.
Proof.
  apply (chunk_text_coverage codepoint_encode codepoint_decode
           10 sample_text 4 1).
  - lia.
  - lia.
  - vm_compute. lia.
Defined.

Lemma chunk_text_count_witness :
  (exists chunks,
      chunk_text codepoint_encode codepoint_decode 10 sample_text 4 1 =
        Some chunks /\
      Z.of_nat (List.length chunks) =
      ceil_div (Z.of_nat (List.length (codepoint_encode sample_text)) - 1)
        (4 - 1)) /\
  chunk_spans codepoint_encode 2 long_text 256 64 =
    Some [(0, 256); (192, 300)]%Z /\
  chunk_text codepoint_encode codepoint_decode 2 long_text 256 64 =
    Some [chunk_of codepoint_decode (codepoint_encode long_text) (0, 256)%Z;
          chunk_of codepoint_decode (codepoint_encode long_text) (192, 300)%Z].
Proof.
  split.
  - apply (proj1 (chunk_text_count codepoint_encode codepoint_decode)
             10 sample_text 4%Z 1%Z).
    + lia.
    + lia.
    + vm_compute. reflexivity.
    + vm_compute. lia.
  - apply (proj2 (chunk_text_count codepoint_encode codepoint_decode)
             2 long_text).
    + vm_compute. reflexivity.
    + lia.
Defined.

Lemma chunk_text_overlap_witness :
  exists spans,
    chunk_spans codepoint_encode 10 sample_text 4 1 = Some spans /\
    chunk_text codepoint_encode codepoint_decode 10 sample_text 4 1 =
      Some (map (chunk_of codepoint_decode (codepoint_encode sample_text))
              spans) /\
    forall i a b,
      nth_error spans i = Some a -> nth_error spans (S i) = Some b ->
      (S (S i) < List.length spans)%nat ->
      span_overlap a b = 1%Z.
Proof.
  apply (chunk_text_overlap codepoint_encode codepoint_decode
           10 sample_text 4 1).
  - lia.
  - lia.
  - vm_compute. lia.
Defined.

Lemma chunk_text_bound_witness :
  exists spans,
    chunk_spans codepoint_encode 10 sample_text 4 1 = Some spans /\
    chunk_text codepoint_encode codepoint_decode 10 sample_text 4 1 =
      Some (map (fun sp =>
                   codepoint_decode
                     (span_tokens (codepoint_encode sample_text) sp))
              spans) /\
    Forall (fun sp =>
              (Z.of_nat
                 (List.length (span_tokens (codepoint_encode sample_text) sp))
               <= 4)%Z) spans.
Proof.
  apply (chunk_text_bound codepoint_encode codepoint_decode
           10 sample_text 4 1).
  - lia.
  - lia.
  - vm_compute. lia.
Defined.

(** The three windows of the sample: the pair that is not the last one and
    the last pair both share one token. *)
Example chunk_spans_sample :
  chunk_spans codepoint_encode 10 sample_text 4 1 =
    Some [(0, 4); (3, 7); (6, 10)]%Z.
Proof. reflexivity. Qed.

(** Parameters outside the claim's range that still give a result: no
    error and chunks that are empty. *)
Example chunk_text_nonpositive_max_tokens :
  chunk_text codepoint_encode codepoint_decode 10 (u "abc") 0 (-1) =
    Some [[]; []; []].
Proof. reflexivity. Qed.

(* ================================================================= *)
(** * Properties of the string operations *)

Lemma str_eqb_eq (a b : pystr) : str_eqb a b = true <-> a = b.
Proof.
  revert b. induction a as [|x a IH]; intros [|y b]; simpl;
    try (split; (reflexivity || discriminate)).
  rewrite andb_true_iff, N.eqb_eq, IH. split.
  - intros [-> ->]. reflexivity.
  - intros [= -> ->]. now split.
Qed.

Lemma str_eqb_refl (a : pystr) : str_eqb a a = true.
Proof. now apply str_eqb_eq. Qed.

Lemma str_eqb_sym (a b : pystr) : str_eqb a b = str_eqb b a.
Proof.
  destruct (str_eqb a b) eqn:E.
  - apply str_eqb_eq in E. subst. now rewrite str_eqb_refl.
  - destruct (str_eqb b a) eqn:E'; [|reflexivity].
    apply str_eqb_eq in E'. subst. now rewrite str_eqb_refl in E.
Qed.

Lemma mem_In (x : pystr) (s : list pystr) : mem x s = true <-> In x s.
Proof.
  unfold mem. rewrite existsb_exists. split.
  - intros (y & Hy & E). apply str_eqb_eq in E. now subst.
  - intros H. exists x. split; [exact H | apply str_eqb_refl].
Qed.

Lemma mem_app (x : pystr) (s t : list pystr) :
  mem x (s ++ t) = mem x s || mem x t.
Proof. unfold mem. apply existsb_app. Qed.

Lemma starts_with_spec (w s : pystr) :
  starts_with w s = true <-> exists post, s = w ++ post.
Proof.
  revert s. induction w as [|x w IH]; intros s; simpl.
  - split; [intros _; now exists s | reflexivity].
  - destruct s as [|y s].
    + split; [discriminate | intros (post & H); discriminate].
    + rewrite andb_true_iff, N.eqb_eq, IH. split.
      * intros (-> & post & ->). now exists post.
      * intros (post & [= -> ->]). split; [reflexivity | now exists post].
Qed.

(** [contains] is containment as a substring. *)
Lemma contains_spec (w s : pystr) :
  contains w s = true <-> exists pre post, s = pre ++ w ++ post.
Proof.
  induction s as [|c s IH].
  - simpl. rewrite orb_false_r, starts_with_spec. split.
    + intros (post & H). now exists [], post.
    + intros (pre & post & H). destruct pre as [|p pre]; [|discriminate].
      now exists post.
  - change (contains w (c :: s))
      with (starts_with w (c :: s) || contains w s).
    rewrite orb_true_iff, starts_with_spec, IH. split.
    + intros [(post & H)|(pre & post & H)].
      * now exists [], post.
      * exists (c :: pre), post. now rewrite H.
    + intros (pre & post & H). destruct pre as [|p pre].
      * left. now exists post.
      * right. injection H as _ H. now exists pre, post.
Qed.

(** Replacing a single character is a substitution character by
    character. *)
Lemma replace_char (c : char) (new s : pystr) :
  replace [c] new s =
  flat_map (fun x => if (c =? x)%N then new else [x]) s.
Proof.
  unfold replace. induction s as [|x s IH]; [reflexivity|].
  simpl. rewrite andb_true_r.
  destruct (c =? x)%N; simpl; now rewrite IH.
Qed.

Lemma forallb_flat_map {A B : Type} (p : B -> bool) (f : A -> list B)
  (l : list A) :
  forallb p (flat_map f l) = forallb (fun a => forallb p (f a)) l.
Proof.
  induction l as [|a l IH]; [reflexivity|].
  simpl. now rewrite forallb_app, IH.
Qed.

Lemma lstrip_nil (s : pystr) : lstrip s = [] <-> forallb isspace s = true.
Proof.
  induction s as [|c s IH]; simpl; [tauto|].
  destruct (isspace c); simpl; [exact IH|].
  split; discriminate.
Qed.

Lemma lstrip_idem (s : pystr) : lstrip (lstrip s) = lstrip s.
Proof.
  induction s as [|c s IH]; simpl; [reflexivity|].
  destruct (isspace c) eqn:E; [exact IH|]. simpl. now rewrite E.
Qed.

Lemma forallb_rev {A : Type} (p : A -> bool) (l : list A) :
  forallb p (rev l) = forallb p l.
Proof.
  induction l as [|a l IH]; [reflexivity|].
  simpl. rewrite forallb_app, IH. simpl. rewrite andb_true_r.
  apply andb_comm.
Qed.

(** A string strips to nothing exactly when it is white space only. *)
Lemma strip_nil (s : pystr) : strip s = [] <-> forallb isspace s = true.
Proof.
  unfold strip, rstrip. split.
  - intros H. apply (f_equal (@rev char)) in H.
    rewrite rev_involutive in H. simpl in H.
    apply lstrip_nil in H. rewrite forallb_rev in H.
    apply lstrip_nil in H. rewrite lstrip_idem in H.
    now apply lstrip_nil.
  - intros H. apply lstrip_nil in H. now rewrite H.
Qed.

Lemma split_from_nonempty (s cur : pystr) :
  Forall (fun w => w <> []) (split_from cur s).
Proof.
  assert (Hrev : forall c : pystr, truthy c = true -> rev c <> []).
  { intros [|x c] Hc; [discriminate|]. simpl.
    intros H. now apply app_eq_nil in H as [_ H]. }
  revert cur. induction s as [|c s IH]; intros cur; simpl.
  - destruct (truthy cur) eqn:E; [|constructor].
    constructor; [now apply Hrev | constructor].
  - destruct (isspace c); [|apply IH].
    destruct (truthy cur) eqn:E; [|apply IH].
    constructor; [now apply Hrev | apply IH].
Qed.

Lemma split_nonempty (s : pystr) : Forall (fun w => w <> []) (split s).
Proof. apply split_from_nonempty. Qed.

Lemma split_blank (s : pystr) : forallb isspace s = true -> split s = [].
Proof.
  unfold split. induction s as [|c s IH]; simpl; [reflexivity|].
  intros H. apply andb_true_iff in H as [Hc Hs]. rewrite Hc. simpl.
  now apply IH.
Qed.

Lemma join_nonempty (sep p : pystr) (rest : list pystr) :
  p <> [] -> join sep (p :: rest) <> [].
Proof.
  intros Hp. destruct rest as [|q rest]; simpl; [exact Hp|].
  intros H. now apply app_eq_nil in H as [H _].
Qed.

(** *** [dict.fromkeys] keeps the first occurrence of each key *)

Lemma filter_twice {A : Type} (p q : A -> bool) (l : list A) :
  filter p (filter q l) = filter (fun a => q a && p a) l.
Proof.
  induction l as [|a l IH]; [reflexivity|].
  simpl. destruct (q a); simpl; [destruct (p a)|]; now rewrite IH.
Qed.

Lemma dict_fromkeys_from (l d : list pystr) :
  fold_left dict_insert l d =
  d ++ filter (fun y => negb (mem y d)) (first_occurrences l).
Proof.
  revert d. induction l as [|x l IH]; intros d; simpl.
  - now rewrite app_nil_r.
  - rewrite IH. unfold dict_insert. destruct (mem x d) eqn:E; simpl.
    + f_equal. rewrite filter_twice. apply filter_ext. intros y.
      destruct (str_eqb y x) eqn:Ey; [|reflexivity].
      apply str_eqb_eq in Ey. subst. now rewrite E.
    + rewrite <- app_assoc. simpl. f_equal. f_equal.
      rewrite filter_twice. apply filter_ext. intros y.
      rewrite mem_app. simpl. rewrite orb_false_r.
      now rewrite negb_orb, andb_comm.
Qed.

(** The code's [dict.fromkeys] refines the specification's wording. *)
Lemma dict_fromkeys_first_occurrences (l : list pystr) :
  dict_fromkeys l = first_occurrences l.
Proof.
  unfold dict_fromkeys. rewrite dict_fromkeys_from. simpl.
  induction (first_occurrences l) as [|y r IH]; [reflexivity|].
  simpl. now rewrite IH.
Qed.

Lemma first_occurrences_In (l : list pystr) (y : pystr) :
  In y (first_occurrences l) <-> In y l.
Proof.
  induction l as [|x l IH]; simpl; [tauto|].
  rewrite filter_In, IH. split.
  - intros [H|[H _]]; auto.
  - intros [H|H]; [now left|].
    destruct (str_eqb y x) eqn:E.
    + apply str_eqb_eq in E. now left.
    + right. now split.
Qed.

Lemma first_occurrences_NoDup (l : list pystr) : NoDup (first_occurrences l).
Proof.
  induction l as [|x l IH]; simpl; constructor.
  - rewrite filter_In. intros [_ H]. now rewrite str_eqb_refl in H.
  - now apply NoDup_filter.
Qed.

(* ================================================================= *)
(** * Properties of [extract_search_keywords] *)

Lemma detect_topic_cases (question_lower : pystr) :
  detect_topic question_lower = (u "Wetter heute", weather_words) \/
  detect_topic question_lower = (u "News aktuell", news_words) \/
  detect_topic question_lower = (u "Preis aktuell", price_words) \/
  detect_topic question_lower = ([], []).
Proof.
  unfold detect_topic.
  destruct (any_in weather_triggers question_lower); [now left|].
  destruct (any_in news_triggers question_lower); [now right; left|].
  destruct (any_in price_triggers question_lower); [now right; right; left|].
  now right; right; right.
Qed.

Lemma any_in_spec (triggers : list pystr) (question_lower : pystr) :
  any_in triggers question_lower = true <->
  trigger_in triggers question_lower.
Proof.
  unfold any_in, trigger_in, occurs_in. rewrite existsb_exists. split.
  - intros (w & Hin & Hc). apply contains_spec in Hc. eauto.
  - intros (w & Hin & H). exists w. split; [exact Hin|].
    now apply contains_spec.
Qed.

Lemma any_in_false (triggers : list pystr) (question_lower : pystr) :
  any_in triggers question_lower = false <->
  ~ trigger_in triggers question_lower.
Proof.
  rewrite <- any_in_spec. destruct (any_in triggers question_lower);
    split; congruence.
Qed.

Lemma truthy_spec {A : Type} (l : list A) : truthy l = true <-> l <> [].
Proof. destruct l; simpl; split; congruence. Qed.

Lemma prefixed_nonempty (p loc : pystr) : p ++ u " " ++ loc <> [].
Proof.
  intros H. apply app_eq_nil in H as [_ H]. discriminate.
Qed.

Section QueryFacts.

Variable lower : pystr -> pystr.
Variable isupper : char -> bool.

Lemma location_step_total (topic_words : list pystr)
  (st : list pystr * list pystr) (word : pystr) :
  word <> [] ->
  exists st', location_step lower isupper topic_words st word = Return st'.
Proof.
  intros Hw. unfold location_step. destruct st as [locations current].
  destruct (str_eqb word (u ",")).
  - destruct (truthy current); eauto.
  - destruct word as [|c word]; [congruence|]. simpl.
    destruct (isupper c && _ && _); [eauto|].
    destruct (truthy current); eauto.
Qed.

Lemma find_locations_total (topic_words words : list pystr) :
  Forall (fun w => w <> []) words ->
  exists locations,
    find_locations lower isupper topic_words words = Return locations.
Proof.
  intros Hw. unfold find_locations.
  assert (H : forall st, exists st',
             for_each (location_step lower isupper topic_words) words st
             = Return st').
  { induction Hw as [|w words Hne _ IH]; intros st; simpl; [eauto|].
    destruct (location_step_total topic_words st w Hne) as [st1 ->].
    simpl. apply IH. }
  destruct (H ([], [])) as [[locations current] ->]. simpl.
  destruct (truthy current); eauto.
Qed.

Lemma location_phrases_total (question : pystr) :
  exists phrases, location_phrases lower isupper question = Return phrases.
Proof.
  unfold location_phrases.
  destruct (find_locations_total (snd (detect_topic (lower question)))
              (split (clean question)) (split_nonempty _)) as [locs ->].
  simpl. eauto.
Qed.

(** The four ways in which the function returns. *)
Lemma extract_cases (question : pystr) :
  exists phrases,
    location_phrases lower isupper question = Return phrases /\
    let prefix := topic_prefix_of lower question in
    let keywords := filter (is_keyword lower) (split (clean question)) in
    (2 <= List.length phrases)%nat /\ prefix <> [] /\
    extract_search_keywords lower isupper question =
      Return (map (fun loc => prefix ++ u " " ++ loc) phrases)
    \/
    (exists loc0, phrases = [loc0]) /\ prefix <> [] /\
    extract_search_keywords lower isupper question =
      Return [if contains (u "Wetter") prefix
              then u "Wetter " ++ hd [] phrases ++ u " aktuell heute"
              else prefix ++ u " " ++ hd [] phrases]
    \/
    (phrases = [] \/ prefix = []) /\ keywords <> [] /\
    extract_search_keywords lower isupper question =
      Return [join (u " ") keywords]
    \/
    (phrases = [] \/ prefix = []) /\ keywords = [] /\
    extract_search_keywords lower isupper question =
      Return [strip (replace (u "?") (u "") question)].
Proof.
  destruct (location_phrases_total question) as [phrases Hp].
  exists phrases. split; [exact Hp|].
  unfold location_phrases in Hp.
  unfold extract_search_keywords, topic_prefix_of.
  destruct (detect_topic (lower question)) as [prefix topic_words].
  cbn [fst snd] in *.
  destruct (find_locations lower isupper topic_words (split (clean question)))
    as [locs|e]; [|discriminate].
  cbn [bind] in *. injection Hp as Hp. rewrite Hp. cbv zeta.
  assert (Hpre : truthy prefix = false -> prefix = [])
    by (destruct prefix; [reflexivity | discriminate]).
  assert (Hfall :
    (phrases = [] \/ prefix = []) ->
    (phrases = [] \/ prefix = []) /\
    filter (is_keyword lower) (split (clean question)) <> [] /\
    (if truthy (filter (is_keyword lower) (split (clean question)))
     then Return [join (u " ")
                    (filter (is_keyword lower) (split (clean question)))]
     else Return [strip (replace (u "?") (u "") question)]) =
    Return [join (u " ") (filter (is_keyword lower) (split (clean question)))]
    \/
    (phrases = [] \/ prefix = []) /\
    filter (is_keyword lower) (split (clean question)) = [] /\
    (if truthy (filter (is_keyword lower) (split (clean question)))
     then Return [join (u " ")
                    (filter (is_keyword lower) (split (clean question)))]
     else Return [strip (replace (u "?") (u "") question)]) =
    Return [strip (replace (u "?") (u "") question)]).
  { intros Hc.
    destruct (filter (is_keyword lower) (split (clean question))) eqn:Ek.
    - right. auto.
    - left. repeat split; auto. discriminate. }
  destruct (Nat.leb_spec 2 (List.length phrases)) as [H2|H2];
    destruct (truthy prefix) eqn:Ht; cbn [andb].
  - left. apply truthy_spec in Ht. auto.
  - right; right. rewrite andb_false_r. apply Hfall. auto.
  - apply truthy_spec in Ht. rewrite andb_true_r.
    destruct phrases as [|loc0 [|loc1 rest]]; cbn [List.length] in H2;
      [| |lia].
    + right; right. cbn [List.length Nat.eqb]. apply Hfall. auto.
    + right; left. split; [eauto|]. split; [exact Ht|].
      cbn [List.length Nat.eqb index nth_error bind hd].
      now destruct (contains (u "Wetter") prefix).
  - right; right. rewrite andb_false_r. apply Hfall. auto.
Qed.

End QueryFacts.

(** *** Location phrases are never blank *)

Lemma split_from_not_blank (s cur : pystr) :
  forallb (fun c => negb (isspace c)) cur = true ->
  Forall (fun w => forallb isspace w = false) (split_from cur s).
Proof.
  assert (Hrev : forall c : pystr,
             forallb (fun c => negb (isspace c)) c = true ->
             truthy c = true -> forallb isspace (rev c) = false).
  { intros [|x c] Hc Ht; [discriminate|]. rewrite forallb_rev. simpl in *.
    apply andb_true_iff in Hc as [Hx _].
    now destruct (isspace x). }
  revert cur. induction s as [|c s IH]; intros cur Hcur; simpl.
  - destruct (truthy cur) eqn:E; [|constructor].
    constructor; [now apply Hrev | constructor].
  - destruct (isspace c) eqn:Ec.
    + destruct (truthy cur) eqn:E; [|now apply IH].
      constructor; [now apply Hrev | now apply IH].
    + apply IH. simpl. now rewrite Ec.
Qed.

Lemma split_not_blank (s : pystr) :
  Forall (fun w => forallb isspace w = false) (split s).
Proof. now apply split_from_not_blank. Qed.

Lemma join_not_blank (sep : pystr) (parts : list pystr) :
  Forall (fun w => forallb isspace w = false) parts ->
  truthy parts = true ->
  forallb isspace (join sep parts) = false.
Proof.
  intros Hp Ht. destruct Hp as [|w parts Hw _]; [discriminate|].
  destruct parts as [|w' parts]; simpl; [exact Hw|].
  now rewrite forallb_app, Hw.
Qed.

Section LocationFacts.

Variable lower : pystr -> pystr.
Variable isupper : char -> bool.

Local Abbreviation not_blank := (fun w : pystr => forallb isspace w = false).

Lemma location_step_not_blank (topic_words locations current : list pystr)
  (word : pystr) (st' : list pystr * list pystr) :
  not_blank word -> Forall not_blank locations -> Forall not_blank current ->
  location_step lower isupper topic_words (locations, current) word
    = Return st' ->
  Forall not_blank (fst st') /\ Forall not_blank (snd st').
Proof.
  intros Hw Hl Hc. unfold location_step. cbv beta iota.
  assert (Hflush :
    truthy current = true ->
    Forall not_blank (locations ++ [join (u " ") current])).
  { intros Ht. apply Forall_app. split; [exact Hl|].
    constructor; [now apply join_not_blank | constructor]. }
  destruct (str_eqb word (u ",")).
  - destruct (truthy current) eqn:Et; intros H; injection H as H; subst st';
      cbn [fst snd]; auto.
  - destruct (index word 0) as [c|e]; cbn [bind]; [|intros H; discriminate H].
    destruct (isupper c && _ && _).
    + intros H; injection H as H; subst st'. cbn [fst snd].
      split; [exact Hl|].
      apply Forall_app. split; [exact Hc | now constructor].
    + destruct (truthy current) eqn:Et; intros H; injection H as H;
        subst st'; cbn [fst snd]; auto.
Qed.

Lemma find_locations_not_blank (topic_words words found : list pystr) :
  Forall not_blank words ->
  find_locations lower isupper topic_words words = Return found ->
  Forall not_blank found.
Proof.
  intros Hw. unfold find_locations.
  assert (H : forall locations current st',
             Forall not_blank locations -> Forall not_blank current ->
             for_each (location_step lower isupper topic_words) words
               (locations, current) = Return st' ->
             Forall not_blank (fst st') /\ Forall not_blank (snd st')).
  { induction Hw as [|w words Hne _ IH]; intros locations current st' Hl Hc;
      cbn [for_each].
    - intros H; injection H as H; subst st'. auto.
    - destruct (location_step lower isupper topic_words (locations, current) w)
        as [[l1 c1]|e] eqn:E; cbn [bind]; [|intros H; discriminate H].
      destruct (location_step_not_blank _ _ _ _ _ Hne Hl Hc E) as [Hl1 Hc1].
      now apply IH. }
  destruct (for_each _ words ([], [])) as [[locations current]|e] eqn:E;
    cbn [bind]; [|intros H'; discriminate H'].
  destruct (H _ _ _ (Forall_nil _) (Forall_nil _) E) as [Hl Hc].
  cbn [fst snd] in Hl, Hc.
  destruct (truthy current) eqn:Et; intros H'; injection H' as H';
    subst found; [|exact Hl].
  apply Forall_app. split; [exact Hl|].
  constructor; [now apply join_not_blank | constructor].
Qed.

(** The filter [if loc.strip()] drops nothing. *)
Lemma filter_strip_id (found : list pystr) :
  Forall not_blank found ->
  filter (fun loc => truthy (strip loc)) found = found.
Proof.
  induction 1 as [|loc found Hloc _ IH]; [reflexivity|]. simpl.
  rewrite IH. destruct (strip loc) eqn:E; [|reflexivity].
  apply strip_nil in E. congruence.
Qed.

(** The distinct phrases are the phrases found, each kept where it occurs
    first. *)
Lemma location_phrases_first_occurrences (question : pystr)
  (phrases : list pystr) :
  location_phrases lower isupper question = Return phrases ->
  exists found,
    find_locations lower isupper (snd (detect_topic (lower question)))
      (split (clean question)) = Return found /\
    phrases = first_occurrences found.
Proof.
  unfold location_phrases.
  destruct (find_locations lower isupper _ (split (clean question)))
    as [found|e] eqn:E; cbn [bind]; [|intros H; discriminate H].
  intros H; injection H as H; subst phrases. exists found. split; [reflexivity|].
  rewrite filter_strip_id
    by (eapply find_locations_not_blank; [apply split_not_blank | exact E]).
  apply dict_fromkeys_first_occurrences.
Qed.

End LocationFacts.

(** *** Questions of question marks and white space *)

Lemma isspace_not_punctuation (c : char) :
  isspace c = true ->
  (44 =? c)%N = false /\ (63 =? c)%N = false /\
  (33 =? c)%N = false /\ (46 =? c)%N = false.
Proof.
  intros Hc. repeat split;
    match goal with
    | |- (?k =? c)%N = false =>
        destruct (N.eqb_spec k c) as [E|];
        [subst c; discriminate Hc | reflexivity]
    end.
Qed.

Lemma clean_blank (question : pystr) :
  strip (replace (u "?") (u "") question) = [] ->
  forallb isspace (clean question) = true.
Proof.
  intros H. apply strip_nil in H.
  change (u "?") with [63%N] in H. change (u "") with (@nil char) in H.
  rewrite replace_char, forallb_flat_map in H.
  unfold clean.
  change (u ".") with [46%N]. change (u "!") with [33%N].
  change (u "?") with [63%N]. change (u ",") with [44%N].
  change (u "") with (@nil char). change (u " , ") with [32%N; 44%N; 32%N].
  rewrite !replace_char, !forallb_flat_map.
  rewrite forallb_forall in H. rewrite forallb_forall. intros c Hin.
  specialize (H c Hin). cbv beta in H.
  destruct (N.eqb_spec 63 c) as [Eq|Hq]; [subst c; reflexivity|].
  simpl in H. rewrite andb_true_r in H.
  destruct (isspace_not_punctuation c H) as (E1 & E2 & E3 & E4).
  rewrite E1. cbn [forallb]. rewrite E2. cbn [forallb]. rewrite E3.
  cbn [forallb]. rewrite E4. cbn [forallb]. now rewrite H.
Qed.

(* ================================================================= *)
(** * The claims about [extract_search_keywords] *)

(** C6: for every question, the empty one as well, the function raises
    nothing and returns a list of at least one query. *)
Theorem extract_search_keywords_total
  (lower : pystr -> pystr) (isupper : char -> bool) (question : pystr) :
  exists queries,
    extract_search_keywords lower isupper question = Return queries /\
    (1 <= List.length queries)%nat.
Proof.
  destruct (extract_cases lower isupper question) as (phrases & _ & Hc).
  cbv zeta in Hc.
  destruct Hc as [(H2 & _ & ->)|[(_ & _ & ->)|[(_ & _ & ->)|(_ & _ & ->)]]];
    eexists; (split; [reflexivity|]); simpl; try lia.
  rewrite length_map. exact (Nat.le_trans _ _ _ (Nat.le_succ_diag_r 1) H2).
Qed.

(** C7, as the code has it: every returned query is a non-empty string
    unless the question, once its question marks are removed, is white space
    only; the result is then the one empty string. *)
Theorem extract_search_keywords_nonempty_queries
  (lower : pystr -> pystr) (isupper : char -> bool) (question : pystr) :
  exists queries,
    extract_search_keywords lower isupper question = Return queries /\
    (strip (replace (u "?") (u "") question) <> [] ->
     Forall (fun q => q <> []) queries) /\
    (strip (replace (u "?") (u "") question) = [] -> queries = [[]]).
Proof.
  destruct (extract_cases lower isupper question) as (phrases & Hp & Hc).
  cbv zeta in Hc.
  assert (Hblank : strip (replace (u "?") (u "") question) = [] ->
                   split (clean question) = [])
    by (intros H; now apply split_blank, clean_blank).
  assert (Hnone : split (clean question) = [] -> phrases = []).
  { intros H. unfold location_phrases in Hp. rewrite H in Hp.
    simpl in Hp. now injection Hp as <-. }
  destruct Hc as [(H2 & _ & ->)|[((loc0 & Hl) & _ & ->)|
                   [(_ & Hk & ->)|(_ & Hk & ->)]]];
    eexists; (split; [reflexivity|]); split.
  - intros _. apply Forall_map, Forall_forall. intros loc _.
    apply prefixed_nonempty.
  - intros H. rewrite (Hnone (Hblank H)) in H2. simpl in H2. lia.
  - intros _. constructor; [|constructor].
    destruct (contains (u "Wetter") (topic_prefix_of lower question));
      [discriminate | apply prefixed_nonempty].
  - intros H. rewrite (Hnone (Hblank H)) in Hl. discriminate.
  - intros _. constructor; [|constructor].
    destruct (filter (is_keyword lower) (split (clean question)))
      as [|k ks] eqn:Ek; [congruence|].
    apply join_nonempty.
    assert (Hin : In k (filter (is_keyword lower) (split (clean question))))
      by (rewrite Ek; now left).
    apply filter_In in Hin as [_ Hin]. unfold is_keyword in Hin.
    destruct k; [|discriminate].
    simpl in Hin. now rewrite andb_false_r in Hin.
  - intros H. rewrite (Hblank H) in Hk. now simpl in Hk.
  - intros H. constructor; [exact H | constructor].
  - intros H. now rewrite H.
Qed.

(** C8: with a topic recognized and at least two distinct location
    phrases, the result is one query per distinct phrase, the topic prefix,
    a space and the phrase; the phrases are those found in the question,
    each kept where it occurs first, without duplicates.  The question
    "Wetter in Mainz, Berlin und Köln" gives three queries, one per city,
    each with the weather prefix. *)
Theorem extract_search_keywords_multi_location :
  (forall (lower : pystr -> pystr) (isupper : char -> bool)
          (question : pystr) (phrases : list pystr),
      topic_prefix_of lower question <> [] ->
      location_phrases lower isupper question = Return phrases ->
      (2 <= List.length phrases)%nat ->
      extract_search_keywords lower isupper question =
        Return (map (fun phrase =>
                       topic_prefix_of lower question ++ u " " ++ phrase)
                  phrases) /\
      NoDup phrases /\
      exists found,
        find_locations lower isupper (snd (detect_topic (lower question)))
          (split (clean question)) = Return found /\
        phrases = first_occurrences found /\
        (forall phrase, In phrase phrases <-> In phrase found)) /\
  location_phrases latin1_lower latin1_isupper
    (u "Wetter in Mainz, Berlin und Köln") =
    Return [u "Mainz"; u "Berlin"; u "Köln"] /\
  extract_latin1 (u "Wetter in Mainz, Berlin und Köln") =
    Return [u "Wetter heute Mainz"; u "Wetter heute Berlin";
            u "Wetter heute Köln"].
Proof.
  split; [|split; reflexivity].
  intros lower isupper question phrases Ht Hp H2.
  destruct (location_phrases_first_occurrences lower isupper question _ Hp)
    as (found & Hf & ->).
  split; [|split].
  - destruct (extract_cases lower isupper question) as (phrases' & Hp' & Hc).
    cbv zeta in Hc. rewrite Hp in Hp'. injection Hp' as <-.
    destruct Hc as [(_ & _ & ->)|[((loc0 & Hl) & _)|
                     [([Hl|Hl] & _)|([Hl|Hl] & _)]]];
      try reflexivity; try congruence;
      rewrite Hl in H2; simpl in H2; lia.
  - apply first_occurrences_NoDup.
  - exists found. split; [exact Hf|]. split; [reflexivity|].
    intros phrase. apply first_occurrences_In.
Qed.

(** C9: with a topic recognized and exactly one location phrase, the result
    is a single query: "Wetter {phrase} aktuell heute" when the topic is the
    weather, the topic prefix, a space and the phrase otherwise.  The
    question "Wie ist das Wetter in Mainz?" gives the weather query for
    "Mainz". *)
Theorem extract_search_keywords_single_location :
  (forall (lower : pystr -> pystr) (isupper : char -> bool)
          (question phrase : pystr),
      topic_prefix_of lower question <> [] ->
      location_phrases lower isupper question = Return [phrase] ->
      (topic_prefix_of lower question = u "Wetter heute" ->
       extract_search_keywords lower isupper question =
         Return [u "Wetter " ++ phrase ++ u " aktuell heute"]) /\
      (topic_prefix_of lower question <> u "Wetter heute" ->
       extract_search_keywords lower isupper question =
         Return [topic_prefix_of lower question ++ u " " ++ phrase])) /\
  location_phrases latin1_lower latin1_isupper
    (u "Wie ist das Wetter in Mainz?") = Return [u "Mainz"] /\
  topic_prefix_of latin1_lower (u "Wie ist das Wetter in Mainz?") =
    u "Wetter heute" /\
  extract_latin1 (u "Wie ist das Wetter in Mainz?") =
    Return [u "Wetter Mainz aktuell heute"].
Proof.
  split; [|repeat split; reflexivity].
  intros lower isupper question phrase Ht Hp.
  destruct (extract_cases lower isupper question) as (phrases' & Hp' & Hc).
  cbv zeta in Hc. rewrite Hp in Hp'. injection Hp' as <-.
  assert (He : extract_search_keywords lower isupper question =
               Return [if contains (u "Wetter") (topic_prefix_of lower question)
                       then u "Wetter " ++ phrase ++ u " aktuell heute"
                       else topic_prefix_of lower question ++ u " " ++ phrase]).
  { destruct Hc as [(H2 & _)|[(_ & _ & ->)|[([Hl|Hl] & _)|([Hl|Hl] & _)]]];
      try reflexivity; try congruence. simpl in H2. lia. }
  rewrite He. unfold topic_prefix_of in *.
  destruct (detect_topic_cases (lower question)) as [E|[E|[E|E]]];
    rewrite E in *; cbn [fst] in *; split; intros H;
    try reflexivity; try congruence; discriminate H.
Qed.

(** C10: the topic is found by substring containment in the lower-cased
    question, in the order weather, news, price: it is the weather as soon
    as a weather trigger occurs anywhere in the text, inside a longer word
    as well; news when no weather trigger occurs and a news trigger does;
    price when neither occurs and a price trigger does.  "Wetterbericht"
    and "Preiselbeere" are recognized though neither is a trigger word. *)
Theorem topic_detection_by_substring :
  (forall (lower : pystr -> pystr) (question : pystr),
      (trigger_in weather_triggers (lower question) ->
       detect_topic (lower question) = (u "Wetter heute", weather_words)) /\
      (~ trigger_in weather_triggers (lower question) ->
       trigger_in news_triggers (lower question) ->
       detect_topic (lower question) = (u "News aktuell", news_words)) /\
      (~ trigger_in weather_triggers (lower question) ->
       ~ trigger_in news_triggers (lower question) ->
       trigger_in price_triggers (lower question) ->
       detect_topic (lower question) = (u "Preis aktuell", price_words)) /\
      (~ trigger_in weather_triggers (lower question) ->
       ~ trigger_in news_triggers (lower question) ->
       ~ trigger_in price_triggers (lower question) ->
       detect_topic (lower question) = ([], []))) /\
  (mem (latin1_lower (u "Wetterbericht")) weather_triggers = false /\
   topic_prefix_of latin1_lower (u "Wetterbericht") = u "Wetter heute" /\
   extract_latin1 (u "Wetterbericht Mainz") =
     Return [u "Wetter Wetterbericht Mainz aktuell heute"]) /\
  (mem (latin1_lower (u "Preiselbeere")) price_triggers = false /\
   topic_prefix_of latin1_lower (u "Preiselbeere") = u "Preis aktuell" /\
   extract_latin1 (u "Preiselbeere") =
     Return [u "Preis aktuell Preiselbeere"]).
Proof.
  split; [|repeat split; reflexivity].
  intros lower question. unfold detect_topic.
  repeat split.
  - intros Hw. apply any_in_spec in Hw. now rewrite Hw.
  - intros Hw Hn. apply any_in_false in Hw. apply any_in_spec in Hn.
    now rewrite Hw, Hn.
  - intros Hw Hn Hp. apply any_in_false in Hw, Hn. apply any_in_spec in Hp.
    now rewrite Hw, Hn, Hp.
  - intros Hw Hn Hp. apply any_in_false in Hw, Hn, Hp.
    now rewrite Hw, Hn, Hp.
Qed.

(** *** The extractor on concrete questions *)

(** The empty question gives the one query [""]. *)
Lemma extract_search_keywords_nonempty_queries_counterexample :
  exists queries,
    extract_latin1 (u "") = Return queries /\
    ~ Forall (fun q : pystr => q <> []) queries.
Proof.
  exists [[]]. split; [reflexivity|].
  intros H. inversion H as [|q qs Hq _]. now apply Hq.
Qed.

Lemma extract_search_keywords_nonempty_queries_witness :
  (exists queries,
      extract_latin1 (u "Wie ist das Wetter in Mainz?") = Return queries /\
      Forall (fun q => q <> []) queries) /\
  (exists queries,
      extract_latin1 (u " ? ") = Return queries /\ queries = [[]]).
Proof.
  split.
  - destruct (extract_search_keywords_nonempty_queries
                latin1_lower latin1_isupper
                (u "Wie ist das Wetter in Mainz?"))
      as (queries & Hq & Hne & _).
    exists queries. split; [exact Hq|]. apply Hne. vm_compute. discriminate.
  - destruct (extract_search_keywords_nonempty_queries
                latin1_lower latin1_isupper (u " ? "))
      as (queries & Hq & _ & He).
    exists queries. split; [exact Hq|]. apply He. vm_compute. reflexivity.
Defined.

Lemma extract_search_keywords_multi_location_witness :
  extract_latin1 (u "Wetter in Mainz, Berlin und Mainz") =
    Return (map (fun phrase =>
                   topic_prefix_of latin1_lower
                     (u "Wetter in Mainz, Berlin und Mainz")
                   ++ u " " ++ phrase)
              [u "Mainz"; u "Berlin"]) /\
  NoDup [u "Mainz"; u "Berlin"] /\
  exists found,
    find_locations latin1_lower latin1_isupper
      (snd (detect_topic
              (latin1_lower (u "Wetter in Mainz, Berlin und Mainz"))))
      (split (clean (u "Wetter in Mainz, Berlin und Mainz"))) =
      Return found /\
    [u "Mainz"; u "Berlin"] = first_occurrences found /\
    (forall phrase, In phrase [u "Mainz"; u "Berlin"] <-> In phrase found).
Proof.
  apply (proj1 extract_search_keywords_multi_location
           latin1_lower latin1_isupper
           (u "Wetter in Mainz, Berlin und Mainz") [u "Mainz"; u "Berlin"]).
  - vm_compute. discriminate.
  - vm_compute. reflexivity.
  - vm_compute. lia.
Defined.

Lemma extract_search_keywords_single_location_witness :
  extract_latin1 (u "Wie ist das Wetter in Mainz?") =
    Return [u "Wetter " ++ u "Mainz" ++ u " aktuell heute"] /\
  extract_latin1 (u "Was kosten Brötchen?") =
    Return [topic_prefix_of latin1_lower (u "Was kosten Brötchen?")
            ++ u " " ++ u "Brötchen"].
Proof.
  split.
  - apply (proj1 extract_search_keywords_single_location
             latin1_lower latin1_isupper
             (u "Wie ist das Wetter in Mainz?") (u "Mainz")).
    + vm_compute. discriminate.
    + vm_compute. reflexivity.
    + vm_compute. reflexivity.
  - apply (proj1 extract_search_keywords_single_location
             latin1_lower latin1_isupper
             (u "Was kosten Brötchen?") (u "Brötchen")).
    + vm_compute. discriminate.
    + vm_compute. reflexivity.
    + vm_compute. discriminate.
Defined.

Lemma topic_detection_by_substring_witness :
  detect_topic (latin1_lower (u "Wetterbericht")) =
    (u "Wetter heute", weather_words) /\
  detect_topic (latin1_lower (u "Preiselbeere")) =
    (u "Preis aktuell", price_words).
Proof.
  split.
  - apply (proj1 topic_detection_by_substring latin1_lower
             (u "Wetterbericht")).
    exists (u "wetter"). split; [simpl; tauto|].
    exists [], (u "bericht"). reflexivity.
  - apply (proj1 topic_detection_by_substring latin1_lower
             (u "Preiselbeere")).
    + apply any_in_false. reflexivity.
    + apply any_in_false. reflexivity.
    + exists (u "preis"). split; [simpl; tauto|].
      exists [], (u "elbeere"). reflexivity.
Defined.

(* ================================================================= *)
(** * More about [chunk_text] and its caller [process_pdf] *)

Lemma chunk_text_no_progress_witness :
  chunk_text codepoint_encode codepoint_decode 1000 (u "ab") 1 1 = None.
Proof.
  apply (chunk_text_no_progress codepoint_encode codepoint_decode
           (u "ab") 1 1); vm_compute; (reflexivity || discriminate).
Defined.

Section WindowFacts.

Open Scope Z_scope.

Lemma windows_full (tot max_tokens overlap : Z) :
  0 <= overlap < max_tokens ->
  forall start spans,
    windows tot max_tokens overlap start spans ->
    start + overlap < tot ->
    (forall i sp,
        nth_error spans i = Some sp -> (S i < List.length spans)%nat ->
        span_len sp = max_tokens) /\
    (forall i a b,
        nth_error spans i = Some a -> nth_error spans (S i) = Some b ->
        fst a < fst b /\ snd a < snd b) /\
    Forall (fun sp => overlap < span_len sp) spans.
Proof.
  intros Hov start spans Hw.
  induction Hw as [start Hlt Hle|start rest Hlt Hw IH]; intros Hs.
  - split; [|split].
    + intros i sp _ Hi. simpl in Hi. lia.
    + intros i a b _ Hb. destruct i; simpl in Hb; [discriminate|].
      now destruct i.
    + constructor; [|constructor]. unfold span_len. simpl. lia.
  - destruct (IH ltac:(lia)) as (Hfull & Hprog & Hlen). split; [|split].
    + intros [|i] sp Hsp Hi; simpl in Hsp.
      * injection Hsp as <-. unfold span_len. simpl. lia.
      * apply (Hfull i sp Hsp). simpl in Hi. lia.
    + intros [|i] a b Ha Hb; simpl in Ha, Hb.
      * injection Ha as <-.
        inversion Hw; subst; simpl in Hb; injection Hb as <-; simpl; lia.
      * now apply (Hprog i a b).
    + constructor; [unfold span_len; simpl; lia | exact Hlen].
Qed.

Variable encode : pystr -> list token.
Variable decode : list token -> pystr.

(** X2: for valid parameters and a text of more than [max_tokens] tokens,
    every chunk but the last decodes exactly [max_tokens] tokens, every
    chunk decodes more than [overlap] tokens, and each chunk starts and
    ends after the one before it: no chunk lies within its predecessor. *)
Theorem chunk_text_full_windows
  (fuel : nat) (text : pystr) (max_tokens overlap : Z) :
  0 <= overlap < max_tokens ->
  max_tokens < Z.of_nat (List.length (encode text)) ->
  (List.length (encode text) <= fuel)%nat ->
  exists spans,
    chunk_spans encode fuel text max_tokens overlap = Some spans /\
    chunk_text encode decode fuel text max_tokens overlap =
      Some (map (fun sp => decode (span_tokens (encode text) sp)) spans) /\
    (forall i sp,
        nth_error spans i = Some sp -> (S i < List.length spans)%nat ->
        Z.of_nat (List.length (span_tokens (encode text) sp)) = max_tokens) /\
    Forall (fun sp =>
              overlap < Z.of_nat (List.length (span_tokens (encode text) sp)))
      spans /\
    (forall i a b,
        nth_error spans i = Some a -> nth_error spans (S i) = Some b ->
        fst a < fst b /\ snd a < snd b).
Proof.
  intros Hov Hgt Hfuel.
  destruct (chunk_spans_valid encode decode fuel text max_tokens overlap
              Hov Hfuel) as (spans & Hs & Ht & _ & Hmany).
  specialize (Hmany Hgt).
  destruct (windows_full _ _ _ Hov _ _ Hmany ltac:(lia))
    as (Hfull & Hprog & Hlen).
  pose proof (windows_bound _ _ _ Hov _ _ Hmany ltac:(lia)) as Hb.
  assert (Hsize : forall sp, In sp spans ->
            Z.of_nat (List.length (span_tokens (encode text) sp))
            = span_len sp).
  { intros sp Hin. rewrite Forall_forall in Hb.
    destruct (Hb sp Hin) as (H1 & H2 & H3). unfold span_tokens.
    rewrite py_slice_length by lia. reflexivity. }
  exists spans. split; [exact Hs|]. split; [exact Ht|]. split; [|split].
  - intros i sp Hsp Hi. rewrite Hsize by (eapply nth_error_In; eauto).
    now apply (Hfull i).
  - rewrite Forall_forall in *. intros sp Hin. rewrite Hsize by exact Hin.
    now apply Hlen.
  - exact Hprog.
Qed.

End WindowFacts.

Lemma chunk_text_full_windows_witness :
  exists spans,
    chunk_spans codepoint_encode 10 sample_text 4 1 = Some spans /\
    chunk_text codepoint_encode codepoint_decode 10 sample_text 4 1 =
      Some (map (fun sp =>
                   codepoint_decode
                     (span_tokens (codepoint_encode sample_text) sp))
              spans) /\
    (forall i sp,
        nth_error spans i = Some sp -> (S i < List.length spans)%nat ->
        Z.of_nat (List.length (span_tokens (codepoint_encode sample_text) sp))
        = 4%Z) /\
    Forall (fun sp =>
              (1 < Z.of_nat
                     (List.length
                        (span_tokens (codepoint_encode sample_text) sp)))%Z)
      spans /\
    (forall i a b,
        nth_error spans i = Some a -> nth_error spans (S i) = Some b ->
        (fst a < fst b)%Z /\ (snd a < snd b)%Z).
Proof.
  apply (chunk_text_full_windows codepoint_encode codepoint_decode
           10 sample_text 4 1).
  - lia.
  - vm_compute. reflexivity.
  - vm_compute. lia.
Defined.

Lemma str_uint_inj (d d' : Decimal.uint) : str_uint d = str_uint d' -> d = d'.
Proof.
  revert d'. induction d; intros d' H; destruct d'; simpl in H;
    try discriminate; try reflexivity;
    injection H as H; f_equal; now apply IHd.
Qed.

(** Two indices with the same decimal digits are equal. *)
Lemma str_nat_inj (i j : nat) : str_nat i = str_nat j -> i = j.
Proof.
  intros H. apply str_uint_inj in H.
  rewrite <- (DecimalNat.Unsigned.of_to i), <- (DecimalNat.Unsigned.of_to j).
  now rewrite H.
Qed.

Lemma NoDup_map_seq {A : Type} (f : nat -> A) (n : nat) :
  (forall i j, f i = f j -> i = j) -> NoDup (map f (seq 0 n)).
Proof.
  intros Hinj. generalize 0%nat as start.
  induction n as [|n IH]; intros start; simpl; constructor; [|apply IH].
  rewrite in_map_iff. intros (j & Hj & Hin). apply Hinj in Hj. subst j.
  apply in_seq in Hin. lia.
Qed.


Section ProcessPdfFacts.

Variable encode : pystr -> list token.
Variable decode : list token -> pystr.
Variable embedding : Type.
Variable extract_text_from_pdf : pystr -> pystr.
Variable get_embeddings : list pystr -> list embedding.

Local Abbreviation process_pdf :=
  (Ingest.process_pdf encode decode extract_text_from_pdf get_embeddings).

(** X3: [process_pdf] chunks with the default parameters 256 and 64, which
    are valid, so the chunking ends for every text and gives at least one
    chunk.  Nothing is stored for an empty text or an empty list of
    embeddings.  Otherwise [collection.add] gets the chunks as documents
    and, for the chunk of index [i], the id "{pdf_path}_{i}" and the
    metadata of source [pdf_path] and chunk id [i]; the ids are pairwise
    distinct. *)
Theorem process_pdf_stores (fuel : nat) (pdf_path : pystr) :
  (List.length (encode (extract_text_from_pdf pdf_path)) <= fuel)%nat ->
  exists chunks,
    chunk_text encode decode fuel (extract_text_from_pdf pdf_path) 256 64
      = Some chunks /\
    chunks <> [] /\
    (extract_text_from_pdf pdf_path = [] ->
     process_pdf fuel pdf_path = Some None) /\
    (get_embeddings chunks = [] ->
     process_pdf fuel pdf_path = Some None) /\
    (extract_text_from_pdf pdf_path <> [] -> get_embeddings chunks <> [] ->
     exists call,
       process_pdf fuel pdf_path = Some (Some call) /\
       Ingest.documents call = chunks /\
       Ingest.embeddings call = get_embeddings chunks /\
       NoDup (Ingest.ids call) /\
       List.length (Ingest.ids call) = List.length chunks /\
       List.length (Ingest.metadatas call) = List.length chunks /\
       forall i, (i < List.length chunks)%nat ->
         nth_error (Ingest.ids call) i = Some (pdf_path ++ u "_" ++ str_nat i)
         /\
         nth_error (Ingest.metadatas call) i =
           Some {| Ingest.source := pdf_path; Ingest.chunk_id := i |}).
Proof.
  intros Hfuel.
  destruct (chunk_text_layout encode decode fuel
              (extract_text_from_pdf pdf_path) 256 64 ltac:(lia) Hfuel)
    as (spans & _ & Ht & Hc & _).
  exists (map (chunk_of decode (encode (extract_text_from_pdf pdf_path)))
            spans).
  split; [exact Ht|]. split.
  { destruct spans; [destruct Hc | discriminate]. }
  unfold Ingest.process_pdf. rewrite Ht.
  set (chunks := map _ spans). split; [|split].
  - intros ->. reflexivity.
  - intros ->. now destruct (truthy (extract_text_from_pdf pdf_path)).
  - intros Htext Hemb.
    destruct (extract_text_from_pdf pdf_path) as [|c text];
      [congruence|]. cbn [truthy negb].
    destruct (get_embeddings chunks) as [|e es] eqn:Ee; [congruence|].
    cbn [truthy negb]. eexists. split; [reflexivity|]. cbn.
    split; [reflexivity|]. split; [reflexivity|]. split; [|split; [|split]].
    + apply NoDup_map_seq. intros i j H.
      apply app_inv_head in H. injection H as H. now apply str_nat_inj.
    + now rewrite length_map, length_seq.
    + now rewrite length_map, length_seq.
    + intros i Hi. split.
      * rewrite nth_error_map, nth_error_seq.
        destruct (Nat.ltb_spec i (List.length chunks)); [reflexivity | lia].
      * rewrite nth_error_map, nth_error_seq.
        destruct (Nat.ltb_spec i (List.length chunks)); [reflexivity | lia].
Qed.

End ProcessPdfFacts.

Lemma process_pdf_stores_witness :
  exists call,
    Ingest.process_pdf codepoint_encode codepoint_decode
      (fun _ => long_text) (map (fun _ => tt)) 300 (u "noten.pdf")
      = Some (Some call) /\
    NoDup (Ingest.ids call) /\
    nth_error (Ingest.ids call) 1 = Some (u "noten.pdf_1").
Proof.
  destruct (process_pdf_stores codepoint_encode codepoint_decode unit
              (fun _ => long_text) (map (fun _ => tt)) 300 (u "noten.pdf"))
    as (chunks & Hc & _ & _ & _ & Hcall).
  - vm_compute. lia.
  - vm_compute in Hc. injection Hc as Hc.
    destruct Hcall as (call & Hp & _ & _ & Hnd & _ & _ & Hnth).
    + vm_compute. discriminate.
    + rewrite <- Hc. discriminate.
    + exists call. split; [exact Hp|]. split; [exact Hnd|].
      apply (Hnth 1%nat). rewrite <- Hc. simpl. lia.
Defined.

(* ================================================================= *)
(** * [main] of notenvektorierung.py *)





(* ================================================================= *)
(** * Lines and pages: [Pager] *)

Lemma split_on_not_nil (sep : char) (s : pystr) : split_on sep s <> [].
Proof.
  destruct s as [|c s]; simpl; [discriminate|].
  destruct (c =? sep)%N; [discriminate|].
  destruct (split_on sep s); discriminate.
Qed.

(** Splitting and joining again gives the string back. *)
Lemma join_split_on (sep : char) (s : pystr) :
  join [sep] (split_on sep s) = s.
Proof.
  induction s as [|c s IH]; [reflexivity|]. simpl.
  pose proof (split_on_not_nil sep s) as Hne.
  destruct (N.eqb_spec c sep) as [->|Hc].
  - destruct (split_on sep s) as [|piece pieces]; [congruence|].
    simpl in *. now rewrite IH.
  - destruct (split_on sep s) as [|piece pieces]; [congruence|].
    destruct pieces; simpl in *; now rewrite IH.
Qed.

Lemma split_on_no_sep (sep : char) (s : pystr) :
  Forall (fun piece => ~ In sep piece) (split_on sep s).
Proof.
  induction s as [|c s IH]; simpl.
  - constructor; [intros [] | constructor].
  - destruct (N.eqb_spec c sep) as [->|Hc].
    + constructor; [intros [] | exact IH].
    + destruct (split_on sep s) as [|piece pieces].
      * constructor; [|constructor]. intros [H|[]]. congruence.
      * inversion IH as [|? ? Hp Hps]; subst. constructor; [|exact Hps].
        intros [H|H]; [congruence | now apply Hp].
Qed.

Lemma split_on_app (sep : char) (a b : pystr) :
  split_on sep (a ++ sep :: b) = split_on sep a ++ split_on sep b.
Proof.
  induction a as [|c a IH]; simpl.
  - now rewrite N.eqb_refl.
  - rewrite IH. destruct (c =? sep)%N; [reflexivity|].
    pose proof (split_on_not_nil sep a) as Hne.
    destruct (split_on sep a); [congruence | reflexivity].
Qed.

Lemma split_on_plain (sep : char) (s : pystr) :
  ~ In sep s -> split_on sep s = [s].
Proof.
  induction s as [|c s IH]; intros Hs; [reflexivity|]. simpl.
  destruct (N.eqb_spec c sep) as [->|Hc]; [exfalso; apply Hs; now left|].
  rewrite IH; [reflexivity|]. intros H. apply Hs. now right.
Qed.

Lemma split_on_join (sep : char) (parts : list pystr) :
  parts <> [] -> Forall (fun piece => ~ In sep piece) parts ->
  split_on sep (join [sep] parts) = parts.
Proof.
  intros Hne Hp. revert Hne.
  induction Hp as [|p parts Hp _ IH]; intros Hne; [now elim Hne|].
  destruct parts as [|q parts]; [now apply split_on_plain|].
  change (join [sep] (p :: q :: parts))
    with (p ++ sep :: join [sep] (q :: parts)).
  rewrite split_on_app, split_on_plain by exact Hp.
  now rewrite IH by discriminate.
Qed.

Lemma join_cons (sep p : pystr) (rest : list pystr) :
  rest <> [] -> join sep (p :: rest) = p ++ sep ++ join sep rest.
Proof. destruct rest; [congruence | reflexivity]. Qed.

Lemma join_app (sep : pystr) (a b : list pystr) :
  a <> [] -> b <> [] ->
  join sep (a ++ b) = join sep a ++ sep ++ join sep b.
Proof.
  intros Ha Hb. induction a as [|p a IH]; [congruence|].
  destruct a as [|q a].
  - simpl app. now rewrite join_cons.
  - change ((p :: q :: a) ++ b) with (p :: ((q :: a) ++ b)).
    rewrite !join_cons by (simpl; discriminate).
    rewrite IH by discriminate. now rewrite <- !app_assoc.
Qed.

Lemma join_concat (sep : pystr) (groups : list (list pystr)) :
  Forall (fun g => g <> []) groups ->
  join sep (map (join sep) groups) = join sep (List.concat groups).
Proof.
  induction 1 as [|g groups Hg Hgs IH]; [reflexivity|].
  destruct groups as [|g' groups].
  - simpl. now rewrite app_nil_r.
  - change (map (join sep) (g :: g' :: groups))
      with (join sep g :: map (join sep) (g' :: groups)).
    rewrite join_cons by discriminate. rewrite IH.
    change (List.concat (g :: g' :: groups)) with (g ++ List.concat (g' :: groups)).
    rewrite join_app; [reflexivity | exact Hg |].
    inversion Hgs as [|? ? Hg' _]; subst. simpl.
    destruct g'; [congruence | discriminate].
Qed.

Lemma count_char_app (c : char) (a b : pystr) :
  count_char c (a ++ b) = (count_char c a + count_char c b)%Z.
Proof.
  unfold count_char. rewrite filter_app, length_app.
  apply Nat2Z.inj_add.
Qed.

Lemma count_char_plain (c : char) (s : pystr) :
  ~ In c s -> count_char c s = 0%Z.
Proof.
  intros Hs. unfold count_char.
  replace (filter (N.eqb c) s) with (@nil char); [reflexivity|].
  symmetry. induction s as [|x s IH]; [reflexivity|]. simpl.
  destruct (N.eqb_spec c x) as [->|Hx]; [exfalso; apply Hs; now left|].
  apply IH. intros H. apply Hs. now right.
Qed.

(** A string of [n] lines has [n - 1] line breaks. *)
Lemma count_char_join (c : char) (parts : list pystr) :
  parts <> [] -> Forall (fun piece => ~ In c piece) parts ->
  count_char c (join [c] parts) = (Z.of_nat (List.length parts) - 1)%Z.
Proof.
  intros Hne Hp. revert Hne.
  induction Hp as [|p parts Hp _ IH]; intros Hne; [now elim Hne|].
  destruct parts as [|q parts].
  - simpl. now rewrite count_char_plain.
  - rewrite join_cons by discriminate.
    rewrite !count_char_app, IH by discriminate.
    rewrite count_char_plain by exact Hp.
    change (count_char c [c]) with (Z.of_nat (List.length (filter (N.eqb c) [c]))).
    simpl filter. rewrite N.eqb_refl. cbn [List.length]. lia.
Qed.

Lemma split_on_length (sep : char) (s : pystr) :
  Z.of_nat (List.length (split_on sep s)) = (count_char sep s + 1)%Z.
Proof.
  rewrite <- (join_split_on sep s) at 2.
  rewrite count_char_join; [lia | apply split_on_not_nil |
                            apply split_on_no_sep].
Qed.

Lemma firstn_plus {A : Type} (n m : nat) (l : list A) :
  firstn (n + m) l = firstn n l ++ firstn m (skipn n l).
Proof.
  revert l. induction n as [|n IH]; intros l; [reflexivity|].
  destruct l as [|a l]; simpl; [now rewrite firstn_nil|].
  now rewrite IH.
Qed.

(** The slice from [a] to [b] is what [l[:b]] adds to [l[:a]]. *)
Lemma firstn_py_slice {A : Type} (l : list A) (a b : Z) :
  (0 <= a <= b)%Z ->
  firstn (Z.to_nat a) l ++ py_slice l a b = firstn (Z.to_nat b) l.
Proof.
  intros Hab. unfold py_slice, slice_index.
  destruct (Z.ltb_spec a 0); [lia|]. destruct (Z.ltb_spec b 0); [lia|].
  replace (Z.to_nat b) with (Z.to_nat a + (Z.to_nat b - Z.to_nat a))%nat
    by lia.
  rewrite firstn_plus. f_equal.
  destruct (Z.le_gt_cases (Z.of_nat (List.length l)) a) as [Hla|Hla].
  - rewrite (Z.min_r a) by lia. rewrite Nat2Z.id.
    rewrite !skipn_all2 by lia. now rewrite !firstn_nil.
  - rewrite (Z.min_l a) by lia.
    destruct (Z.le_gt_cases b (Z.of_nat (List.length l))) as [Hlb|Hlb].
    + rewrite (Z.min_l b) by lia. f_equal. lia.
    + rewrite (Z.min_r b) by lia.
      rewrite !firstn_all2; [reflexivity | |]; rewrite length_skipn; lia.
Qed.

Lemma In_firstn_skipn {A : Type} (n m : nat) (l : list A) (x : A) :
  In x (firstn n (skipn m l)) -> In x l.
Proof.
  intros H. rewrite <- (firstn_skipn m l). apply in_or_app. right.
  rewrite <- (firstn_skipn n (skipn m l)). apply in_or_app. now left.
Qed.

Lemma py_slice_In {A : Type} (l : list A) (a b : Z) (x : A) :
  In x (py_slice l a b) -> In x l.
Proof. unfold py_slice. apply In_firstn_skipn. Qed.

Lemma py_slice_pages {A : Type} (l : list A) (k : Z) (n : nat) :
  (0 < k)%Z ->
  List.concat (map (fun i => py_slice l (Z.of_nat i * k) (Z.of_nat i * k + k))
            (seq 0 n)) =
  firstn (Z.to_nat (Z.of_nat n * k)) l.
Proof.
  intros Hk. induction n as [|n IH]; [reflexivity|].
  rewrite seq_S, map_app, concat_app, IH.
  cbn [map List.concat Nat.add]. rewrite app_nil_r.
  rewrite firstn_py_slice by nia. f_equal. nia.
Qed.

Lemma py_slice_count {A : Type} (l : list A) (a b : Z) :
  (0 <= a <= b)%Z ->
  Z.of_nat (List.length (py_slice l a b)) =
  (Z.min b (Z.of_nat (List.length l)) - Z.min a (Z.of_nat (List.length l)))%Z.
Proof.
  intros Hab. unfold py_slice, slice_index.
  destruct (Z.ltb_spec a 0); [lia|]. destruct (Z.ltb_spec b 0); [lia|].
  rewrite length_firstn, length_skipn. lia.
Qed.

Module PagerFacts.

Import Pager.

Open Scope Z_scope.

Lemma total_bounds (len lpp : Z) :
  0 < lpp -> 1 <= len ->
  (Z.max 1 ((len + lpp - 1) / lpp) - 1) * lpp < len
  <= Z.max 1 ((len + lpp - 1) / lpp) * lpp.
Proof.
  intros Hl Hlen.
  pose proof (Z.div_mod (len + lpp - 1) lpp ltac:(lia)) as Hdm.
  pose proof (Z.mod_pos_bound (len + lpp - 1) lpp Hl) as Hm.
  destruct (Z.max_spec 1 ((len + lpp - 1) / lpp)) as [[H ->]|[H ->]]; nia.
Qed.

(** What the constructor sets for plain text. *)
Lemma init_plain (console_height : Z) (content : pystr)
  (lines_per_page : option Z) (p : t) :
  init console_height content lines_per_page false = Some p ->
  is_markdown p = false /\ raw_content p = content /\
  lines p = split_on 10%N content /\
  Pager.lines_per_page p <> 0 /\
  total_pages p =
    Z.max 1 ((Z.of_nat (List.length (lines p)) + Pager.lines_per_page p - 1)
             / Pager.lines_per_page p).
Proof.
  unfold init, floordiv.
  set (lpp := match lines_per_page with
              | Some n => if n =? 0 then console_height - 1 else n
              | None => console_height - 1
              end).
  destruct (Z.eqb_spec lpp 0) as [E|E]; [discriminate|].
  intros [= <-]. simpl. auto.
Qed.

Lemma plain_total_bounds (console_height : Z) (content : pystr)
  (lines_per_page : option Z) (p : t) :
  init console_height content lines_per_page false = Some p ->
  0 < Pager.lines_per_page p ->
  (total_pages p - 1) * Pager.lines_per_page p
    < Z.of_nat (List.length (lines p))
    <= total_pages p * Pager.lines_per_page p /\
  1 <= total_pages p.
Proof.
  intros Hi Hl. destruct (init_plain _ _ _ _ Hi) as (_ & _ & Hlines & _ & Ht).
  assert (Hlen : 1 <= Z.of_nat (List.length (lines p))).
  { rewrite Hlines. pose proof (split_on_not_nil 10%N content).
    destruct (split_on 10%N content); [congruence | simpl; lia]. }
  rewrite Ht. split; [now apply total_bounds | lia].
Qed.

(** X5: for plain text and a positive number of lines per page, the pages
    [0 .. total_pages - 1], joined by line breaks, are the content:
    paging loses and adds nothing. *)
Theorem plain_pages_round_trip (console_height : Z) (content : pystr)
  (lines_per_page : option Z) (p : t) :
  init console_height content lines_per_page false = Some p ->
  0 < Pager.lines_per_page p ->
  exists shown,
    Forall2 (fun i page => get_page p (Z.of_nat i) = Return page)
      (seq 0 (Z.to_nat (total_pages p))) shown /\
    join newline shown = content.
Proof.
  intros Hi Hl.
  destruct (plain_total_bounds _ _ _ _ Hi Hl) as ((Hlo & Hhi) & H1).
  destruct (init_plain _ _ _ _ Hi) as (Hmd & _ & Hlines & _ & _).
  set (k := Pager.lines_per_page p) in *.
  set (slice := fun i : nat =>
                  py_slice (lines p) (Z.of_nat i * k) (Z.of_nat i * k + k)).
  exists (map (fun i => join newline (slice i))
            (seq 0 (Z.to_nat (total_pages p)))).
  split.
  - generalize (seq 0 (Z.to_nat (total_pages p))) as l.
    induction l as [|i l IH]; simpl; constructor; [|exact IH].
    unfold get_page. now rewrite Hmd.
  - rewrite <- map_map with (f := slice) (g := join newline).
    rewrite join_concat.
    + unfold slice. rewrite py_slice_pages by exact Hl.
      rewrite firstn_all2 by lia.
      rewrite Hlines. apply join_split_on.
    + apply Forall_map, Forall_forall. intros i Hin.
      apply in_seq in Hin. intros Hnil.
      apply (f_equal (@List.length pystr)) in Hnil.
      apply (f_equal Z.of_nat) in Hnil. unfold slice in Hnil.
      rewrite py_slice_count in Hnil by nia. simpl in Hnil. nia.
Qed.

(** X6: for plain text and a positive number of lines per page, a page in
    the range [0 .. total_pages - 1] has at least one line and at most
    [lines_per_page] lines, so fewer than [lines_per_page] line breaks; a
    page number past the range gives the empty string. *)
Theorem plain_page_size (console_height : Z) (content : pystr)
  (lines_per_page : option Z) (p : t) (page_num : Z) :
  init console_height content lines_per_page false = Some p ->
  0 < Pager.lines_per_page p ->
  exists page_lines,
    get_page p page_num = Return (join newline page_lines) /\
    (0 <= page_num < total_pages p ->
     1 <= Z.of_nat (List.length page_lines) <= Pager.lines_per_page p /\
     count_char 10%N (join newline page_lines) =
       Z.of_nat (List.length page_lines) - 1) /\
    (total_pages p <= page_num -> page_lines = []).
Proof.
  intros Hi Hl.
  destruct (plain_total_bounds _ _ _ _ Hi Hl) as ((Hlo & Hhi) & H1).
  destruct (init_plain _ _ _ _ Hi) as (Hmd & _ & Hlines & _ & _).
  set (k := Pager.lines_per_page p) in *.
  exists (py_slice (lines p) (page_num * k) (page_num * k + k)).
  split; [unfold get_page; now rewrite Hmd|]. split.
  - intros Hr. split.
    + rewrite py_slice_count by nia. nia.
    + apply count_char_join.
      * intros Hnil. apply (f_equal (@List.length pystr)) in Hnil.
        apply (f_equal Z.of_nat) in Hnil.
        rewrite py_slice_count in Hnil by nia. simpl in Hnil. nia.
      * rewrite Hlines.
        pose proof (split_on_no_sep 10%N content) as Hn.
        rewrite Forall_forall in *. intros x Hx. apply Hn.
        now apply py_slice_In in Hx.
  - intros Hr. apply length_zero_iff_nil. apply Nat2Z.inj.
    rewrite py_slice_count by nia. simpl. nia.
Qed.

(** X7: for plain text and a positive number of lines per page,
    [total_pages] is the least number of pages, at least one, that holds
    all lines of the content, a line more than it has line breaks. *)
Theorem plain_total_pages (console_height : Z) (content : pystr)
  (lines_per_page : option Z) (p : t) :
  init console_height content lines_per_page false = Some p ->
  0 < Pager.lines_per_page p ->
  1 <= total_pages p /\
  (total_pages p - 1) * Pager.lines_per_page p
    < count_char 10%N content + 1
    <= total_pages p * Pager.lines_per_page p.
Proof.
  intros Hi Hl.
  destruct (plain_total_bounds _ _ _ _ Hi Hl) as (Hb & H1).
  destruct (init_plain _ _ _ _ Hi) as (_ & _ & Hlines & _ & _).
  rewrite Hlines, split_on_length in Hb. now split.
Qed.

(** X8: the constructor raises [ZeroDivisionError] exactly for plain text
    on a console of height 1 when [lines_per_page] is not given or is 0,
    which makes [console.height - 1 = 0] the page length; for Markdown it
    raises nothing. *)
Theorem init_zero_division (console_height : Z) (content : pystr)
  (lines_per_page : option Z) :
  (init console_height content lines_per_page false = None <->
   (lines_per_page = None \/ lines_per_page = Some 0) /\ console_height = 1)
  /\
  init console_height content lines_per_page true <> None.
Proof.
  split; [|discriminate]. unfold init, floordiv.
  destruct lines_per_page as [n|].
  - destruct (Z.eqb_spec n 0) as [->|Hn].
    + destruct (Z.eqb_spec (console_height - 1) 0) as [E|E].
      * split; [intros _; split; [now right | lia] | reflexivity].
      * split; [discriminate | intros (_ & H); lia].
    + destruct (Z.eqb_spec n 0) as [E|E]; [lia|].
      split; [discriminate|].
      intros ([H|H] & _); [discriminate H | injection H as H; lia].
  - destruct (Z.eqb_spec (console_height - 1) 0) as [E|E].
    + split; [intros _; split; [now left | lia] | reflexivity].
    + split; [discriminate | intros (_ & H); lia].
Qed.

(** *** Markdown: sections *)

Lemma split_step_groups (ls : list pystr) (groups : list (list pystr))
  (current : list pystr) :
  fold_left split_step ls (map (join newline) groups, current) =
  (map (join newline) (fst (fold_left group_step ls (groups, current))),
   snd (fold_left group_step ls (groups, current))).
Proof.
  revert groups current. induction ls as [|line ls IH];
    intros groups current; [reflexivity|].
  cbn [fold_left]. unfold split_step at 2, group_step at 2 4.
  destruct (str_eqb (strip line) [] && truthy current).
  - rewrite <- IH. now rewrite map_app.
  - apply IH.
Qed.

Lemma split_markdown_groups (content : pystr) :
  _split_markdown content = map (join newline) (section_lines content).
Proof.
  unfold _split_markdown, section_lines.
  rewrite (split_step_groups _ [] []).
  destruct (fold_left group_step _ ([], [])) as [groups current].
  cbn [fst snd]. destruct (truthy current); [|reflexivity].
  now rewrite map_app.
Qed.

Local Abbreviation not_blank_line := (fun l : pystr => is_blank l = false).
Local Abbreviation keep_line := (fun l : pystr => negb (is_blank l)).
Local Abbreviation paragraph :=
  (fun g : list pystr => g <> [] /\ Forall not_blank_line (tl g)).

(** The invariant of the loop of [_split_markdown]: no section is empty,
    a blank line is at most the first line of a section, and the lines that
    are not blank are kept in their order. *)
Lemma group_step_invariant (P : pystr -> Prop) (ls : list pystr) :
  forall groups current,
    Forall paragraph groups ->
    Forall not_blank_line (tl current) ->
    Forall P (List.concat groups ++ current) -> Forall P ls ->
    Forall paragraph (fst (fold_left group_step ls (groups, current))) /\
    Forall not_blank_line
      (tl (snd (fold_left group_step ls (groups, current)))) /\
    Forall P (List.concat (fst (fold_left group_step ls (groups, current)))
              ++ snd (fold_left group_step ls (groups, current))) /\
    filter keep_line
      (List.concat (fst (fold_left group_step ls (groups, current)))
       ++ snd (fold_left group_step ls (groups, current))) =
    filter keep_line (List.concat groups ++ current) ++ filter keep_line ls.
Proof.
  induction ls as [|line ls IH]; intros groups current Hg Hc HP Hls.
  - cbn [fold_left fst snd filter]. rewrite app_nil_r. auto.
  - inversion Hls as [|? ? Hline Hls']; subst.
    cbn [fold_left]. unfold group_step at 2 4 6 8 10 12.
    fold (is_blank line).
    destruct (is_blank line) eqn:Eb; cbn [andb];
      [destruct (truthy current) eqn:Et|].
    + assert (Hcat : List.concat (groups ++ [current]) ++ []
                     = List.concat groups ++ current)
        by (rewrite concat_app; cbn [List.concat]; now rewrite !app_nil_r).
      destruct (IH (groups ++ [current]) []) as (H1 & H2 & H3 & H4).
      * apply Forall_app. split; [exact Hg|]. constructor; [|constructor].
        split; [now apply truthy_spec | exact Hc].
      * constructor.
      * now rewrite Hcat.
      * exact Hls'.
      * split; [exact H1|]. split; [exact H2|]. split; [exact H3|].
        rewrite H4, Hcat. cbn [filter]. now rewrite Eb.
    + assert (current = []) by (destruct current; [reflexivity|discriminate]).
      subst current.
      destruct (IH groups ([] ++ [line])) as (H1 & H2 & H3 & H4);
        [exact Hg | constructor | | exact Hls' |].
      * rewrite app_nil_r in HP. apply Forall_app. split; [exact HP|].
        now constructor.
      * split; [exact H1|]. split; [exact H2|]. split; [exact H3|].
        rewrite H4. cbn [app]. rewrite !filter_app. cbn [filter].
        rewrite Eb. cbn [negb]. reflexivity.
    + destruct (IH groups (current ++ [line])) as (H1 & H2 & H3 & H4);
        [exact Hg | | | exact Hls' |].
      * destruct current as [|c cs]; [constructor|]. cbn [app tl] in *.
        apply Forall_app. split; [exact Hc | now constructor].
      * rewrite app_assoc. apply Forall_app. split; [exact HP|].
        now constructor.
      * split; [exact H1|]. split; [exact H2|]. split; [exact H3|].
        rewrite H4. rewrite (app_assoc (List.concat groups)).
        rewrite (filter_app _ (List.concat groups ++ current)).
        cbn [filter]. rewrite Eb. cbn [negb]. now rewrite <- app_assoc.
Qed.

Lemma group_step_not_nil (ls : list pystr) :
  forall groups current,
    groups <> [] \/ current <> [] \/ ls <> [] ->
    fst (fold_left group_step ls (groups, current)) <> [] \/
    snd (fold_left group_step ls (groups, current)) <> [].
Proof.
  induction ls as [|line ls IH]; intros groups current H.
  - cbn. destruct H as [H|[H|H]]; [now left | now right | congruence].
  - cbn [fold_left]. unfold group_step at 2 4.
    destruct (str_eqb (strip line) [] && truthy current); apply IH.
    + left. destruct groups; discriminate.
    + right; left. destruct current; discriminate.
Qed.

Lemma split_markdown_facts (content : pystr) :
  _split_markdown content <> [] /\
  (exists groups,
      _split_markdown content = map (join newline) groups /\
      Forall (fun g => g <> [] /\ Forall (fun l => is_blank l = false) (tl g))
        groups) /\
  filter (fun l => negb (is_blank l))
    (List.concat (map (split_on 10%N) (_split_markdown content))) =
  filter (fun l => negb (is_blank l)) (split_on 10%N content).
Proof.
  rewrite split_markdown_groups. unfold section_lines.
  destruct (group_step_invariant (fun l => ~ In 10%N l)
              (split_on 10%N content) [] [])
    as (H1 & H2 & H3 & H4);
    [constructor | constructor | constructor | apply split_on_no_sep |].
  destruct (group_step_not_nil (split_on 10%N content) [] []) as [Hn|Hn];
    [right; right; apply split_on_not_nil | |];
    destruct (fold_left group_step (split_on 10%N content) ([], []))
      as [groups current]; cbn [fst snd] in *.
  all: assert (Hall : Forall (fun g => g <> [] /\
                                Forall (fun l => is_blank l = false) (tl g))
                 (if truthy current then groups ++ [current] else groups)).
  all: try (destruct (truthy current) eqn:Et; [|exact H1];
            apply Forall_app; split; [exact H1|];
            constructor; [|constructor];
            split; [now apply truthy_spec | exact H2]).
  all: assert (Hcat : List.concat
                        (if truthy current then groups ++ [current]
                         else groups)
                      = List.concat groups ++ current).
  all: try (destruct current; cbn [truthy];
            [now rewrite app_nil_r
            |rewrite concat_app; cbn [List.concat]; now rewrite app_nil_r]).
  all: split; [|split].
  all: try (exists (if truthy current then groups ++ [current] else groups);
            split; [reflexivity | exact Hall]).
  all: try (rewrite map_map;
            rewrite (map_ext_in _ (fun g => g));
            [rewrite map_id, Hcat; exact H4|];
            intros g Hg; rewrite Forall_forall in Hall;
            apply (split_on_join 10%N);
            [apply (Hall g Hg)|];
            rewrite Forall_forall in H3 |- *; intros l Hl; apply H3;
            rewrite <- Hcat; apply in_concat; now exists g).
  - destruct (truthy current); destruct groups; try discriminate;
      now elim Hn.
  - destruct current; [now elim Hn|]. cbn [truthy].
    destruct groups; discriminate.
Qed.


(** *** Markdown: pages *)

Lemma page_step_groups (lpp : Z) (sects : list pystr)
  (groups : list (list pystr)) (current : list pystr) (n : Z) :
  fold_left (page_step lpp) sects
    (map (join (newline ++ newline)) groups, current, n) =
  (map (join (newline ++ newline))
     (fst (fst (fold_left (page_group_step lpp) sects (groups, current, n)))),
   snd (fst (fold_left (page_group_step lpp) sects (groups, current, n))),
   snd (fold_left (page_group_step lpp) sects (groups, current, n))).
Proof.
  revert groups current n. induction sects as [|section sects IH];
    intros groups current n; [reflexivity|].
  cbn [fold_left]. unfold page_step at 2, page_group_step at 2 4 6.
  destruct ((n + (count_char 10%N section + 3) >? lpp) && truthy current).
  - rewrite <- IH. now rewrite map_app.
  - apply IH.
Qed.

Lemma markdown_pages_groups (lpp : Z) (sects : list pystr) :
  markdown_pages lpp sects =
  map (join (newline ++ newline)) (page_sections lpp sects).
Proof.
  unfold markdown_pages, page_sections.
  pose proof (page_step_groups lpp sects [] [] 0) as H.
  cbn [map] in H. rewrite H. clear H.
  destruct (fold_left (page_group_step lpp) sects ([], [], 0))
    as [[groups current] n].
  cbn [fst snd]. destruct (truthy current); [|reflexivity].
  now rewrite map_app.
Qed.

Local Abbreviation within_budget lpp :=
  (fun g : list pystr =>
     g <> [] /\ (List.length g = 1%nat \/ page_estimate g <= lpp)).

Lemma page_estimate_app (a b : list pystr) :
  page_estimate (a ++ b) = page_estimate a + page_estimate b.
Proof.
  unfold page_estimate. induction a as [|x a IH]; simpl; [reflexivity|].
  rewrite IH. lia.
Qed.

(** The invariant of the loop of [_calculate_pages]. *)
Lemma page_group_step_invariant (lpp : Z) (sects : list pystr) :
  forall groups current n,
    Forall (within_budget lpp) groups ->
    n = page_estimate current ->
    (current = [] \/ List.length current = 1%nat
     \/ page_estimate current <= lpp) ->
    Forall (within_budget lpp)
      (fst (fst (fold_left (page_group_step lpp) sects
                   (groups, current, n)))) /\
    (snd (fst (fold_left (page_group_step lpp) sects (groups, current, n)))
       = []
     \/ List.length
          (snd (fst (fold_left (page_group_step lpp) sects
                       (groups, current, n)))) = 1%nat
     \/ page_estimate
          (snd (fst (fold_left (page_group_step lpp) sects
                       (groups, current, n)))) <= lpp) /\
    List.concat
      (fst (fst (fold_left (page_group_step lpp) sects (groups, current, n))))
    ++ snd (fst (fold_left (page_group_step lpp) sects (groups, current, n)))
    = List.concat groups ++ current ++ sects.
Proof.
  induction sects as [|section sects IH]; intros groups current n Hg Hn Hc.
  - cbn. now rewrite app_nil_r.
  - cbn [fold_left]. unfold page_group_step at 2 4 6 8 10 12.
    destruct (Z.gtb_spec (n + (count_char 10%N section + 3)) lpp) as [Hgt|Hle];
      cbn [andb]; [destruct (truthy current) eqn:Et|].
    + destruct (IH (groups ++ [current]) [section]
                  (count_char 10%N section + 3)) as (H1 & H2 & H3).
      * apply Forall_app. split; [exact Hg|]. constructor; [|constructor].
        apply truthy_spec in Et. split; [exact Et|].
        destruct Hc as [Hc|Hc]; [congruence | exact Hc].
      * unfold page_estimate, estimated_lines. simpl. lia.
      * right; left. reflexivity.
      * split; [exact H1|]. split; [exact H2|].
        rewrite H3, concat_app. cbn [List.concat app].
        now rewrite app_nil_r, <- app_assoc.
    + assert (current = []) by (destruct current; [reflexivity|discriminate]).
      subst current.
      destruct (IH groups ([] ++ [section])
                  (n + (count_char 10%N section + 3))) as (H1 & H2 & H3).
      * exact Hg.
      * rewrite Hn. unfold page_estimate, estimated_lines. simpl. lia.
      * right; left. reflexivity.
      * split; [exact H1|]. split; [exact H2|]. exact H3.
    + destruct (IH groups (current ++ [section])
                  (n + (count_char 10%N section + 3))) as (H1 & H2 & H3).
      * exact Hg.
      * rewrite page_estimate_app, Hn.
        unfold page_estimate, estimated_lines. simpl. lia.
      * right; right. rewrite page_estimate_app.
        unfold page_estimate at 2. unfold estimated_lines. simpl. lia.
      * split; [exact H1|]. split; [exact H2|].
        rewrite H3. now rewrite <- app_assoc.
Qed.

Lemma page_sections_spec (lpp : Z) (sects : list pystr) :
  Forall (within_budget lpp) (page_sections lpp sects) /\
  List.concat (page_sections lpp sects) = sects.
Proof.
  unfold page_sections.
  destruct (page_group_step_invariant lpp sects [] [] 0)
    as (H1 & H2 & H3);
    [constructor | reflexivity | now left |].
  destruct (fold_left (page_group_step lpp) sects ([], [], 0))
    as [[groups current] n].
  cbn [fst snd app List.concat] in *.
  destruct current as [|c cs]; cbn [truthy].
  - rewrite app_nil_r in H3. now split.
  - split.
    + apply Forall_app. split; [exact H1|]. constructor; [|constructor].
      split; [discriminate|]. destruct H2 as [H2|H2]; [discriminate|exact H2].
    + rewrite concat_app. cbn [List.concat]. now rewrite app_nil_r.
Qed.

(** Facts about a pager made for Markdown. *)
Lemma init_markdown (console_height : Z) (content : pystr)
  (lines_per_page : option Z) (p : t) :
  init console_height content lines_per_page true = Some p ->
  is_markdown p = true /\ raw_content p = content /\
  sections p = _split_markdown content /\
  pages p = markdown_pages (Pager.lines_per_page p) (sections p) /\
  total_pages p =
    (if truthy (pages p) then Z.of_nat (List.length (pages p)) else 1).
Proof.
  unfold init. intros [= <-]. simpl. auto.
Qed.

Lemma markdown_page_facts (console_height : Z) (content : pystr)
  (lines_per_page : option Z) (p : t) :
  init console_height content lines_per_page true = Some p ->
  exists groups,
    pages p = map (join (newline ++ newline)) groups /\
    List.concat groups = sections p /\
    Forall (fun g => g <> [] /\
                     (List.length g = 1%nat \/
                      page_estimate g <= Pager.lines_per_page p)) groups.
Proof.
  intros Hi. destruct (init_markdown _ _ _ _ Hi) as (_ & _ & _ & Hp & _).
  exists (page_sections (Pager.lines_per_page p) (sections p)).
  destruct (page_sections_spec (Pager.lines_per_page p) (sections p))
    as (H1 & H2).
  split; [rewrite Hp; apply markdown_pages_groups|]. now split.
Qed.


Lemma filter_concat {A : Type} (f : A -> bool) (ls : list (list A)) :
  filter f (List.concat ls) = List.concat (map (filter f) ls).
Proof.
  induction ls as [|l ls IH]; [reflexivity|].
  cbn [List.concat map]. now rewrite filter_app, IH.
Qed.

Lemma blank_nil : is_blank [] = true.
Proof. reflexivity. Qed.

(** The lines of sections joined by an empty line are the lines of the
    sections and the empty lines between them. *)
Lemma split_on_join_sections (g : list pystr) :
  g <> [] ->
  filter keep_line (split_on 10%N (join (newline ++ newline) g)) =
  filter keep_line (List.concat (map (split_on 10%N) g)).
Proof.
  intros Hg. induction g as [|s g IH]; [congruence|].
  destruct g as [|s' g].
  - cbn [join map List.concat]. now rewrite app_nil_r.
  - rewrite join_cons by discriminate.
    change (s ++ (newline ++ newline) ++ join (newline ++ newline) (s' :: g))
      with (s ++ 10%N :: ([] ++ 10%N :: join (newline ++ newline) (s' :: g))).
    rewrite !split_on_app. cbn [split_on map List.concat].
    rewrite !filter_app. rewrite IH by discriminate.
    cbn [filter map List.concat]. rewrite blank_nil. cbn [negb app].
    now rewrite !filter_app.
Qed.

(** X11: for Markdown the constructor counts the pages it made, at least
    one, and the lines of the pages that are not blank are, in order, the
    lines of the content that are not blank: paging drops and adds blank
    lines only. *)
Theorem markdown_lines_kept (console_height : Z) (content : pystr)
  (lines_per_page : option Z) (p : t) :
  init console_height content lines_per_page true = Some p ->
  1 <= total_pages p /\
  total_pages p = Z.of_nat (List.length (pages p)) /\
  filter (fun l => negb (is_blank l))
    (List.concat (map (split_on 10%N) (pages p))) =
  filter (fun l => negb (is_blank l)) (split_on 10%N content).
Proof.
  intros Hi.
  destruct (init_markdown _ _ _ _ Hi) as (_ & _ & Hs & _ & Ht).
  destruct (markdown_page_facts _ _ _ _ Hi) as (groups & Hp & Hc & Hb).
  destruct (split_markdown_facts content) as (Hne & _ & Hkeep).
  assert (Hpages : pages p <> []).
  { rewrite Hp. intros Hm. apply map_eq_nil in Hm. subst groups.
    simpl in Hc. congruence. }
  split; [|split].
  - rewrite Ht. destruct (pages p); [congruence|]. simpl. lia.
  - rewrite Ht. destruct (pages p); [congruence | reflexivity].
  - rewrite <- Hkeep, <- Hs, <- Hc, Hp.
    clear - Hb. induction Hb as [|g groups (Hg & _) _ IH]; [reflexivity|].
    cbn [map List.concat]. rewrite map_app, concat_app, !filter_app.
    rewrite IH. f_equal. now apply split_on_join_sections.
Qed.

(** *** Turning the pages *)

Lemma get_page_in_range (console_height : Z) (content : pystr)
  (lines_per_page : option Z) (markdown : bool) (p : t) :
  init console_height content lines_per_page markdown = Some p ->
  1 < total_pages p ->
  forall n, 0 <= n < total_pages p ->
  exists page,
    get_page p n = Return page /\
    (is_markdown p = true -> In page (pages p)).
Proof.
  intros Hi Ht n Hn. destruct markdown.
  - destruct (init_markdown _ _ _ _ Hi) as (Hmd & _ & _ & _ & Htot).
    unfold get_page. rewrite Hmd.
    destruct (pages p) as [|pg pgs] eqn:Ep; cbn [truthy] in Htot; [lia|].
    rewrite <- Ep in *. rewrite Htot in Hn.
    destruct (Z.ltb_spec n (Z.of_nat (List.length (pages p)))); [|lia].
    unfold index_z.
    destruct (Z.ltb_spec n 0); [lia|].
    destruct (Z.leb_spec 0 n); [|lia].
    destruct (Z.ltb_spec n (Z.of_nat (List.length (pages p)))); [|lia].
    cbn [andb]. unfold index.
    destruct (nth_error (pages p) (Z.to_nat n)) as [page|] eqn:En.
    + exists page. split; [reflexivity|]. intros _.
      now apply nth_error_In in En.
    + apply nth_error_None in En. lia.
  - destruct (init_plain _ _ _ _ Hi) as (Hmd & _).
    unfold get_page. rewrite Hmd. eexists. split; [reflexivity|].
    congruence.
Qed.

Lemma show_loop_in_range (p : t) (keys : list char) :
  (forall n, 0 <= n < total_pages p ->
             exists page, get_page p n = Return page /\
                          (is_markdown p = true -> In page (pages p))) ->
  forall current_page,
    0 <= current_page < total_pages p ->
    exists shown page,
      show_loop p keys current_page = Return shown /\
      get_page p current_page = Return page /\
      hd_error shown = Some page /\
      (List.length shown <= S (List.length keys))%nat /\
      Forall (fun out => (exists n, 0 <= n < total_pages p /\
                                    get_page p n = Return out) /\
                         (is_markdown p = true -> In out (pages p))) shown.
Proof.
  intros Hget. induction keys as [|key keys IH]; intros cur Hcur;
    destruct (Hget cur Hcur) as (page & Hpage & Hin).
  - exists [page], page. cbn [show_loop]. rewrite Hpage.
    split; [reflexivity|]. split; [reflexivity|]. split; [reflexivity|].
    split; [simpl; lia|]. constructor; [|constructor].
    split; [eauto | exact Hin].
  - cbn [show_loop]. rewrite Hpage.
    assert (Hhere : (exists n, 0 <= n < total_pages p /\
                               get_page p n = Return page) /\
                    (is_markdown p = true -> In page (pages p)))
      by (split; [eauto | exact Hin]).
    assert (Hstep : forall next, 0 <= next < total_pages p ->
              exists shown page0,
                match show_loop p keys next with
                | Return shown => Return (page :: shown)
                | Raise e => Raise e
                end = Return shown /\
                Return page = Return page0 /\
                hd_error shown = Some page0 /\
                (List.length shown <= S (S (List.length keys)))%nat /\
                Forall (fun out => (exists n, 0 <= n < total_pages p /\
                                              get_page p n = Return out) /\
                                   (is_markdown p = true -> In out (pages p)))
                  shown).
    { intros next Hnext.
      destruct (IH next Hnext) as (shown & pg & Hs & _ & _ & Hl & Hall).
      rewrite Hs. exists (page :: shown), page.
      split; [reflexivity|]. split; [reflexivity|]. split; [reflexivity|].
      split; [simpl; lia|]. now constructor. }
    destruct (key =? 32)%N.
    + destruct (Z.ltb_spec cur (total_pages p - 1)); apply Hstep; lia.
    + destruct (key =? 98)%N.
      * destruct (Z.gtb_spec cur 0); apply Hstep; lia.
      * destruct (key =? 113)%N; [|now apply Hstep].
        exists [page], page.
        split; [reflexivity|]. split; [reflexivity|]. split; [reflexivity|].
        split; [simpl; lia|]. now constructor.
Qed.

(** X12: [show] raises nothing, whatever keys are pressed.  With at most
    one page it prints the raw content once.  Otherwise it starts on page 0
    and each thing it prints is a page of the range
    [0 .. total_pages - 1], for Markdown one of the pages made by the
    constructor: the keys never lead past the first or the last page. *)
Theorem show_stays_in_range (console_height : Z) (content : pystr)
  (lines_per_page : option Z) (markdown : bool) (p : t) (keys : list char) :
  init console_height content lines_per_page markdown = Some p ->
  exists shown,
    show p keys = Return shown /\
    (total_pages p <= 1 -> shown = [raw_content p]) /\
    (1 < total_pages p ->
     (exists first, get_page p 0 = Return first /\
                    hd_error shown = Some first) /\
     (List.length shown <= S (List.length keys))%nat /\
     Forall (fun out => (exists n, 0 <= n < total_pages p /\
                                   get_page p n = Return out) /\
                        (is_markdown p = true -> In out (pages p))) shown).
Proof.
  intros Hi. unfold show.
  destruct (Z.leb_spec (total_pages p) 1) as [Hle|Hgt].
  - exists [raw_content p]. split; [reflexivity|]. split; [reflexivity | lia].
  - destruct (show_loop_in_range p keys
                (get_page_in_range _ _ _ _ _ Hi Hgt) 0 ltac:(lia))
      as (shown & page & Hs & Hp & Hh & Hl & Hall).
    exists shown. split; [exact Hs|]. split; [lia|]. intros _.
    split; [now exists page|]. now split.
Qed.

End PagerFacts.

(** *** The pager on a concrete text *)

Lemma plain_pages_round_trip_witness :
  exists p shown,
    Pager.init 5 sample_page_text (Some 2%Z) false = Some p /\
    Forall2 (fun i page => Pager.get_page p (Z.of_nat i) = Return page)
      (seq 0 (Z.to_nat (Pager.total_pages p))) shown /\
    join newline shown = sample_page_text.
Proof.
  destruct (Pager.init 5 sample_page_text (Some 2%Z) false) as [p|] eqn:E;
    [|vm_compute in E; discriminate E].
  destruct (PagerFacts.plain_pages_round_trip 5 sample_page_text
              (Some 2%Z) p E) as (shown & H1 & H2).
  - vm_compute in E. injection E as <-. vm_compute. reflexivity.
  - exists p, shown. now split.
Defined.

Lemma plain_page_size_witness :
  exists p page_lines,
    Pager.init 5 sample_page_text (Some 2%Z) false = Some p /\
    Pager.get_page p 1 = Return (join newline page_lines) /\
    (1 <= Z.of_nat (List.length page_lines) <= Pager.lines_per_page p)%Z.
Proof.
  destruct (Pager.init 5 sample_page_text (Some 2%Z) false) as [p|] eqn:E;
    [|vm_compute in E; discriminate E].
  destruct (PagerFacts.plain_page_size 5 sample_page_text
              (Some 2%Z) p 1 E) as (page_lines & H1 & H2 & _).
  - vm_compute in E. injection E as <-. vm_compute. reflexivity.
  - exists p, page_lines. split; [reflexivity|]. split; [exact H1|].
    apply H2. vm_compute in E. injection E as <-. vm_compute.
    split; [discriminate | reflexivity].
Defined.

Lemma plain_total_pages_witness :
  exists p,
    Pager.init 5 sample_page_text (Some 2%Z) false = Some p /\
    ((Pager.total_pages p - 1) * Pager.lines_per_page p
     < count_char 10%N sample_page_text + 1
     <= Pager.total_pages p * Pager.lines_per_page p)%Z.
Proof.
  destruct (Pager.init 5 sample_page_text (Some 2%Z) false) as [p|] eqn:E;
    [|vm_compute in E; discriminate E].
  exists p. split; [reflexivity|].
  apply (PagerFacts.plain_total_pages 5 sample_page_text (Some 2%Z) p E).
  vm_compute in E. injection E as <-. vm_compute. reflexivity.
Defined.


Lemma markdown_lines_kept_witness :
  exists p,
    Pager.init 7 sample_page_text None true = Some p /\
    Pager.total_pages p = Z.of_nat (List.length (Pager.pages p)) /\
    filter (fun l => negb (Pager.is_blank l))
      (List.concat (map (split_on 10%N) (Pager.pages p))) =
    filter (fun l => negb (Pager.is_blank l)) (split_on 10%N sample_page_text).
Proof.
  destruct (Pager.init 7 sample_page_text None true) as [p|] eqn:E;
    [|vm_compute in E; discriminate E].
  destruct (PagerFacts.markdown_lines_kept 7 sample_page_text None p E)
    as (_ & H1 & H2).
  exists p. now split.
Defined.

Lemma show_stays_in_range_witness :
  exists p shown,
    Pager.init 5 sample_page_text (Some 2%Z) false = Some p /\
    Pager.show p [32; 32; 32; 98; 113]%N = Return shown /\
    (List.length shown <= 6)%nat.
Proof.
  destruct (Pager.init 5 sample_page_text (Some 2%Z) false) as [p|] eqn:E;
    [|vm_compute in E; discriminate E].
  destruct (PagerFacts.show_stays_in_range 5 sample_page_text (Some 2%Z)
              false p [32; 32; 32; 98; 113]%N E) as (shown & H1 & _ & H2).
  exists p, shown. split; [reflexivity|]. split; [exact H1|].
  apply H2. vm_compute in E. injection E as <-. vm_compute. reflexivity.
Defined.

(* ================================================================= *)
(** * The commands of [run] *)

Lemma lstrip_split (s : pystr) :
  exists pre, s = pre ++ lstrip s /\ forallb isspace pre = true.
Proof.
  induction s as [|c s (pre & Hs & Hpre)]; [now exists []|].
  simpl. destruct (isspace c) eqn:Ec.
  - exists (c :: pre). simpl. rewrite Ec, Hpre. split; [now f_equal|reflexivity].
  - now exists [].
Qed.

Lemma lstrip_head (s : pystr) :
  match lstrip s with
  | [] => True
  | c :: _ => isspace c = false
  end.
Proof.
  induction s as [|c s IH]; simpl; [exact I|].
  destruct (isspace c) eqn:Ec; [exact IH | exact Ec].
Qed.

Lemma take_word_spec (s : pystr) :
  s = fst (take_word s) ++ snd (take_word s) /\
  forallb (fun c => negb (isspace c)) (fst (take_word s)) = true /\
  match snd (take_word s) with
  | [] => True
  | c :: _ => isspace c = true
  end.
Proof.
  induction s as [|c s (Hs & Hw & Hr)]; [now repeat split|]. simpl.
  destruct (isspace c) eqn:Ec; [now repeat split|].
  destruct (take_word s) as [word rest]. cbn [fst snd] in *.
  split; [simpl; now f_equal|]. split; [|exact Hr]. simpl. now rewrite Ec.
Qed.

(** What [split(maxsplit=1)] returns: nothing for white space only, else
    the first word, and the part behind the white space that follows the
    word when there is such a part. *)
Lemma split_maxsplit1_spec (s : pystr) :
  (split_maxsplit1 s = [] /\ forallb isspace s = true) \/
  (exists pre word post,
      split_maxsplit1 s = [word] /\ s = pre ++ word ++ post /\
      forallb isspace pre = true /\ forallb isspace post = true /\
      word <> [] /\ forallb (fun c => negb (isspace c)) word = true) \/
  (exists pre word mid rest,
      split_maxsplit1 s = [word; rest] /\ s = pre ++ word ++ mid ++ rest /\
      forallb isspace pre = true /\ forallb isspace mid = true /\
      mid <> [] /\
      word <> [] /\ forallb (fun c => negb (isspace c)) word = true /\
      exists c rest', rest = c :: rest' /\ isspace c = false).
Proof.
  unfold split_maxsplit1.
  destruct (lstrip_split s) as (pre & Hs & Hpre).
  pose proof (lstrip_head s) as Hhead.
  destruct (lstrip s) as [|c s1] eqn:El.
  - left. split; [reflexivity|]. now apply lstrip_nil.
  - right.
    destruct (take_word_spec (c :: s1)) as (Hw & Hword & Hrest).
    assert (Hne : fst (take_word (c :: s1)) <> []).
    { simpl. rewrite Hhead. now destruct (take_word s1). }
    destruct (take_word (c :: s1)) as [word rest]. cbn [fst snd] in *.
    destruct (lstrip_split rest) as (mid & Hr & Hmid).
    pose proof (lstrip_head rest) as Hrh.
    destruct (lstrip rest) as [|c' rest'] eqn:Er.
    + left. exists pre, word, rest.
      split; [reflexivity|]. split; [now rewrite Hs, Hw|].
      split; [exact Hpre|]. split; [now apply lstrip_nil|]. now split.
    + right. exists pre, word, mid, (c' :: rest').
      split; [reflexivity|]. split; [now rewrite Hs, Hw, Hr at 1|].
      split; [exact Hpre|]. split; [exact Hmid|]. split.
      * intros ->. simpl in Hr. subst rest. congruence.
      * split; [exact Hne|]. split; [exact Hword|]. now exists c', rest'.
Qed.

(** X13: an input line that starts a command raises [IndexError], which
    [run] does not catch, exactly when nothing but white space follows its
    first character, as in the line "/"; every other line is given to a
    branch of the command chain. *)
Theorem run_command_index_error (lower : pystr -> pystr)
  (user_input : pystr) :
  (run_command lower user_input = Raise IndexError <->
   forallb isspace (skipn 1 user_input) = true) /\
  (forallb isspace (skipn 1 user_input) = false ->
   exists c, run_command lower user_input = Return c).
Proof.
  unfold run_command.
  assert (Hchain : forall cmd arg, exists c,
    (if str_eqb cmd (u "paste") then Return Paste
     else if mem cmd [u "exit"; u "quit"; u "q"] then Return Exit
     else if str_eqb cmd (u "help") then Return Help
     else if str_eqb cmd (u "model") then Return Model
     else if str_eqb cmd (u "reasoning") then Return (Reasoning arg)
     else if str_eqb cmd (u "clear") then Return Clear
     else if str_eqb cmd (u "history") then Return History
     else if str_eqb cmd (u "w") && truthy arg then Return (WebQuestion arg)
     else Return (Unknown cmd)) = Return c).
  { intros cmd arg.
    repeat match goal with
           | |- context [if ?b then _ else _] => destruct b
           end; eauto. }
  destruct (split_maxsplit1_spec (skipn 1 user_input))
    as [(Hp & Hb)|[(pre & word & post & Hp & Hs & Hpre & _ & Hne & Hw)
                  |(pre & word & mid & rest & Hp & Hs & Hpre & _ & _ & Hne
                    & Hw & _)]]; rewrite Hp; cbn [index nth_error bind].
  - split; [now split|]. congruence.
  - assert (Hnb : forallb isspace (skipn 1 user_input) = false).
    { rewrite Hs, !forallb_app.
      destruct word as [|c word]; [congruence|]. simpl in *.
      apply andb_true_iff in Hw as [Hc _].
      destruct (isspace c); [discriminate|]. now rewrite andb_false_r. }
    cbn [List.length Nat.ltb Nat.leb].
    destruct (Hchain (lower word) (u "")) as [c Hc].
    cbn [bind]. rewrite Hc. split; [|intros _; now exists c].
    rewrite Hnb. split; discriminate.
  - assert (Hnb : forallb isspace (skipn 1 user_input) = false).
    { rewrite Hs, !forallb_app.
      destruct word as [|c word]; [congruence|]. simpl in *.
      apply andb_true_iff in Hw as [Hc _].
      destruct (isspace c); [discriminate|]. now rewrite andb_false_r. }
    cbn [List.length Nat.ltb Nat.leb index nth_error bind].
    destruct (Hchain (lower word) rest) as [c Hc].
    rewrite Hc. split; [|intros _; now exists c].
    rewrite Hnb. split; discriminate.
Qed.

(** X14: the question that [/w] hands to the chat is the part of the line
    behind the command word and the white space after it, up to the end of
    the line: it is not empty, does not start with white space, and keeps
    the white space at its end. *)
Theorem run_command_web_question (lower : pystr -> pystr)
  (user_input arg : pystr) :
  run_command lower user_input = Return (WebQuestion arg) ->
  exists pre word mid,
    skipn 1 user_input = pre ++ word ++ mid ++ arg /\
    forallb isspace pre = true /\
    lower word = u "w" /\ forallb (fun c => negb (isspace c)) word = true /\
    forallb isspace mid = true /\ mid <> [] /\
    exists c rest, arg = c :: rest /\ isspace c = false.
Proof.
  unfold run_command.
  destruct (split_maxsplit1_spec (skipn 1 user_input))
    as [(Hp & Hb)|[(pre & word & post & Hp & Hs & Hpre & _ & Hne & Hw)
                  |(pre & word & mid & rest & Hp & Hs & Hpre & Hmid & Hmne
                    & Hne & Hw & Hrest)]]; rewrite Hp;
    cbn [index nth_error bind List.length Nat.ltb Nat.leb].
  - discriminate.
  - repeat match goal with
           | |- context [if ?b then _ else _] =>
               destruct b eqn:?; try discriminate
           end.
    rewrite andb_false_r in *. discriminate.
  - destruct (str_eqb (lower word) (u "w")) eqn:Ew;
      repeat match goal with
             | |- context [if ?b then _ else _] =>
                 destruct b eqn:?; try discriminate
             end.
    intros [= <-]. apply str_eqb_eq in Ew.
    exists pre, word, mid. repeat split; auto.
Qed.

Lemma run_command_index_error_witness :
  run_command latin1_lower (u "/ ") = Raise IndexError /\
  exists c, run_command latin1_lower (u "/help") = Return c.
Proof.
  split.
  - apply (proj1 (run_command_index_error latin1_lower (u "/ "))).
    reflexivity.
  - apply (proj2 (run_command_index_error latin1_lower (u "/help"))).
    reflexivity.
Defined.

Lemma run_command_web_question_witness :
  exists pre word mid,
    skipn 1 (u "/W  Wetter Mainz ") =
      pre ++ word ++ mid ++ u "Wetter Mainz " /\
    forallb isspace pre = true /\
    latin1_lower word = u "w" /\
    forallb (fun c => negb (isspace c)) word = true /\
    forallb isspace mid = true /\ mid <> [] /\
    exists c rest, u "Wetter Mainz " = c :: rest /\ isspace c = false.
Proof.
  apply (run_command_web_question latin1_lower (u "/W  Wetter Mainz ")).
  reflexivity.
Defined.

(* ================================================================= *)
(** * The words of the location phrases *)

Section LocationWords.

Variable lower : pystr -> pystr.
Variable isupper : char -> bool.




End LocationWords.


(* ================================================================= *)
(** * The search context of a chat message *)

Module WebSearchFacts.

Import WebSearch.

Section SearchFacts.

Variable tavily : bool.
Variable ddgs : bool.
Variable web_search_tavily : pystr -> Z -> option pystr.
Variable web_search_ddgs : pystr -> Z -> option pystr.
Variable lower : pystr -> pystr.

Local Abbreviation web_search :=
  (WebSearch.web_search tavily ddgs web_search_tavily web_search_ddgs).
Local Abbreviation enhanced_message :=
  (WebSearch.enhanced_message tavily ddgs web_search_tavily web_search_ddgs
     lower).

Lemma falsy_false (r : option pystr) :
  falsy r = false -> exists s, r = Some s /\ s <> [].
Proof.
  destruct r as [[|c s]|]; try discriminate. intros _. eexists.
  split; [reflexivity | discriminate].
Qed.

(** [web_search] gives the result of Tavily when Tavily is set and answers
    with a non-empty string, else that of DuckDuckGo when it is set and
    answers with one, else the error message; [last_search_method] names
    the service that answered. *)
Lemma web_search_cases (query : pystr) (max_results : Z) :
  (exists s, tavily = true /\
             web_search_tavily query max_results = Some s /\ s <> [] /\
             web_search query max_results = (s, Some (u "Tavily"))) \/
  (exists s, (tavily = false \/
              falsy (web_search_tavily query max_results) = true) /\
             ddgs = true /\
             web_search_ddgs query max_results = Some s /\ s <> [] /\
             web_search query max_results
               = (s, Some (u "DuckDuckGo (Fallback)"))) \/
  ((tavily = false \/ falsy (web_search_tavily query max_results) = true) /\
   (ddgs = false \/ falsy (web_search_ddgs query max_results) = true) /\
   web_search query max_results = (error_msg, None)).
Proof.
  unfold WebSearch.web_search.
  destruct tavily.
  - destruct (falsy (web_search_tavily query max_results)) eqn:Et.
    + cbn [andb]. destruct ddgs.
      * destruct (falsy (web_search_ddgs query max_results)) eqn:Ed.
        -- right; right. auto.
        -- right; left. apply falsy_false in Ed as (s & Hs & Hne).
           exists s. rewrite Hs. auto 10.
      * rewrite Et. right; right. auto.
    + cbn [andb]. rewrite Et. left.
      apply falsy_false in Et as (s & Hs & Hne).
      exists s. rewrite Hs. auto.
  - cbn [falsy andb]. destruct ddgs.
    + destruct (falsy (web_search_ddgs query max_results)) eqn:Ed.
      * right; right. auto.
      * right; left. apply falsy_false in Ed as (s & Hs & Hne).
        exists s. rewrite Hs. auto 10.
    + right; right. auto.
Qed.

(** X16: the message appended to the conversation starts with the user's
    message.  It is the user's message alone, or it goes on with the
    request line and the bracketed result of a search, and then that
    result is the non-empty answer of Tavily or DuckDuckGo to the user's
    message and contains neither "Fehler" nor "nicht verfügbar".  The
    error message of [web_search] is never passed on: when no service
    answers, the message stays as the user wrote it. *)
Theorem enhanced_message_context (user_message : pystr) (use_search : bool) :
  (enhanced_message user_message use_search = user_message \/
   exists results,
     enhanced_message user_message use_search =
       user_message ++ request_line ++ context_header ++ results
       ++ context_footer /\
     (tavily = true /\ web_search_tavily user_message 5 = Some results \/
      ddgs = true /\ web_search_ddgs user_message 5 = Some results) /\
     results <> [] /\
     ~ occurs_in (u "Fehler") results /\
     ~ occurs_in (u "nicht verfügbar") results) /\
  ((tavily = false \/ falsy (web_search_tavily user_message 5) = true) ->
   (ddgs = false \/ falsy (web_search_ddgs user_message 5) = true) ->
   enhanced_message user_message use_search = user_message).
Proof.
  unfold WebSearch.enhanced_message, WebSearch.search_context.
  destruct ((tavily || ddgs)
            && (use_search
                || existsb (fun kw => contains kw (lower user_message))
                     strong_triggers)); [|split; auto].
  assert (Herr : contains (u "nicht verfügbar") error_msg = true)
    by (vm_compute; reflexivity).
  assert (Hctx : forall results,
            truthy (context_header ++ results ++ context_footer) = true)
    by reflexivity.
  destruct (web_search_cases user_message 5)
    as [(s & Ht & Hs & Hne & ->)|[(s & Ht & Hd & Hs & Hne & ->)
                                 |(Ht & Hd & ->)]]; cbn [fst].
  - assert (Hnot : ~ ((tavily = false \/
                       falsy (web_search_tavily user_message 5) = true))).
    { rewrite Ht, Hs. intros [H|H]; [discriminate|].
      destruct s; [congruence | discriminate]. }
    split; [|intros H; now elim Hnot].
    destruct (truthy s && negb (contains (u "Fehler") s)
              && negb (contains (u "nicht verfügbar") s)) eqn:E;
      [|now left].
    right. exists s. rewrite Hctx.
    apply andb_true_iff in E as [E E3]. apply andb_true_iff in E as [E1 E2].
    split; [reflexivity|]. split; [now left|]. split; [exact Hne|].
    split; intros Hc; apply contains_spec in Hc;
      [rewrite Hc in E2 | rewrite Hc in E3]; discriminate.
  - assert (Hnot : ~ ((ddgs = false \/
                       falsy (web_search_ddgs user_message 5) = true))).
    { rewrite Hd, Hs. intros [H|H]; [discriminate|].
      destruct s; [congruence | discriminate]. }
    split; [|intros _ H; now elim Hnot].
    destruct (truthy s && negb (contains (u "Fehler") s)
              && negb (contains (u "nicht verfügbar") s)) eqn:E;
      [|now left].
    right. exists s. rewrite Hctx.
    apply andb_true_iff in E as [E E3]. apply andb_true_iff in E as [E1 E2].
    split; [reflexivity|]. split; [now right|]. split; [exact Hne|].
    split; intros Hc; apply contains_spec in Hc;
      [rewrite Hc in E2 | rewrite Hc in E3]; discriminate.
  - rewrite Herr. rewrite andb_false_r. cbn [truthy]. split; auto.
Qed.

End SearchFacts.

End WebSearchFacts.

Lemma enhanced_message_context_witness :
  WebSearch.enhanced_message true true (fun _ _ => None)
    (fun _ _ => Some (u "")) latin1_lower (u "Wetter in Mainz") false
  = u "Wetter in Mainz".
Proof.
  apply (proj2 (WebSearchFacts.enhanced_message_context true true
                  (fun _ _ => None) (fun _ _ => Some (u "")) latin1_lower
                  (u "Wetter in Mainz") false)).
  - right. reflexivity.
  - right. reflexivity.
Defined.

Lemma init_zero_division_witness :
  Pager.init 1 sample_page_text None false = None.
Proof.
  apply (proj1 (PagerFacts.init_zero_division 1 sample_page_text None)).
  split; [now left | reflexivity].
Defined.
